(** * Registry facade: configuration wiring, HTTP front-end and listener handover

    A shallow embedding of [components/registry-facade/pkg/registry/registry.go].

    - Go values are modelled as the code has them: [FileMode] is a 32-bit
      unsigned integer (a [Z] with its wrap-around written out), strings are
      byte strings compared bytewise, [map[string]T] is a [gmap string T].
    - Calls that leave the package (the operating system, the [handover]
      package, TLS loading, the layer-source constructors, the router's
      matcher) are fields of one record [Extern]; every such call is also
      written to a trace, so that what the code asks of its environment can
      be observed even when the function returns early with an error.
    - The goroutines started by [Serve] and [OfferHandover] and the channels
      between them are a small transition system whose actions are the
      scheduler's and the environment's choices. *)

From Stdlib Require Import ZArith String Ascii List Lia DecimalString.
From stdpp Require Import base option gmap strings list.
Import ListNotations.
Local Open Scope string_scope.
Local Open Scope Z_scope.

(* ===================================================================== *)
(** * Part I. The parts of Go's standard library that the code relies on *)
(* ===================================================================== *)

Module Go.

(** ** [io/fs.FileMode]: a [uint32] *)

Definition FileMode := Z.

Definition uint32 (x : Z) : Z := x mod 2 ^ 32.

(** The mode bits, [1 << (32 - 1 - iota)]. *)
Definition ModeDir        : FileMode := Z.shiftl 1 31.
Definition ModeAppend     : FileMode := Z.shiftl 1 30.
Definition ModeExclusive  : FileMode := Z.shiftl 1 29.
Definition ModeTemporary  : FileMode := Z.shiftl 1 28.
Definition ModeSymlink    : FileMode := Z.shiftl 1 27.
Definition ModeDevice     : FileMode := Z.shiftl 1 26.
Definition ModeNamedPipe  : FileMode := Z.shiftl 1 25.
Definition ModeSocket     : FileMode := Z.shiftl 1 24.
Definition ModeSetuid     : FileMode := Z.shiftl 1 23.
Definition ModeSetgid     : FileMode := Z.shiftl 1 22.
Definition ModeCharDevice : FileMode := Z.shiftl 1 21.
Definition ModeSticky     : FileMode := Z.shiftl 1 20.
Definition ModeIrregular  : FileMode := Z.shiftl 1 19.

Definition ModeType : FileMode :=
  Z.lor ModeDir (Z.lor ModeSymlink (Z.lor ModeNamedPipe (Z.lor ModeSocket
    (Z.lor ModeDevice (Z.lor ModeCharDevice ModeIrregular))))).

(** [a * b] and [a & b] on [FileMode]. *)
Definition mode_mul (a b : FileMode) : FileMode := uint32 (a * b).
Definition mode_and (a b : FileMode) : FileMode := Z.land a b.

(** [os.DirEntry]: [Name()] and [Type()].  [Type()] returns the type bits
    of the entry's mode, [is_file_type] says a value is such a result. *)
Record DirEntry := { Name : string; Type_ : FileMode }.

Definition is_file_type (t : FileMode) : Prop :=
  0 <= t < 2 ^ 32 /\ Z.land t ModeType = t.

Definition isSocket (f : DirEntry) : bool :=
  negb (mode_and (Type_ f) ModeSocket =? 0).

(** ** String order: Go compares strings bytewise *)

Definition string_gt (a b : string) : bool := String.ltb b a.

Definition string_is_empty (s : string) : bool :=
  match s with EmptyString => true | _ => false end.

(** ** [fmt.Sprintf("%d", n)] *)

Definition itoa (n : Z) : string := NilZero.string_of_int (Z.to_int n).

(** ** [path/filepath] on Unix: [Clean] and [Join] *)

Definition slash : ascii := "/"%char.

(** [strings.Split(s, "/")]. *)
Fixpoint split_slash (s : string) : list string :=
  match s with
  | EmptyString => [EmptyString]
  | String c r =>
      if Ascii.eqb c slash then EmptyString :: split_slash r
      else match split_slash r with
           | [] => [String c EmptyString]
           | x :: xs => String c x :: xs
           end
  end.

(** One path element of [Clean]'s loop.  The output buffer is kept as the
    stack of elements written so far, last one first.  An empty element and
    [.] are dropped; [..] removes the last element when there is one to
    backtrack over, is kept on a path that is not rooted, and is dropped at
    the root; any other element is appended. *)
Definition clean_step (rooted : bool) (out : list string) (el : string)
  : list string :=
  if string_is_empty el then out
  else if String.eqb el "." then out
  else if String.eqb el ".." then
    match out with
    | top :: rest =>
        if String.eqb top ".." then el :: out else rest
    | [] => if rooted then out else [el]
    end
  else el :: out.

Definition is_rooted (path : string) : bool :=
  match path with
  | String c _ => Ascii.eqb c slash
  | EmptyString => false
  end.

Definition clean_elems (path : string) : list string :=
  fold_left (clean_step (is_rooted path)) (split_slash path) [].

(** [strings.Join(elems, "/")]. *)
Fixpoint join_slash (elems : list string) : string :=
  match elems with
  | [] => EmptyString
  | [e] => e
  | e :: rest => e +:+ "/" +:+ join_slash rest
  end.

(** The buffer's content: the elements in order, after the leading
    separator of a rooted path; an empty buffer reads [.]. *)
Definition render (rooted : bool) (out : list string) : string :=
  match rooted, out with
  | true, _ => "/" +:+ join_slash (rev out)
  | false, [] => "."
  | false, _ => join_slash (rev out)
  end.

Definition Clean (path : string) : string :=
  if string_is_empty path then "."
  else render (is_rooted path) (clean_elems path).

(** [Join] skips leading empty elements, joins the rest with the separator
    and cleans the result; with nothing but empty elements it is empty. *)
Fixpoint Join (elem : list string) : string :=
  match elem with
  | [] => EmptyString
  | e :: rest =>
      if string_is_empty e then Join rest
      else Clean (join_slash elem)
  end.

(** ** [time.Duration]: nanoseconds *)

Definition Second : Z := 1000000000.

(** ** [context.Context], as far as its deadline goes *)

Record Context := { ctx_timeout : option Z }.

Definition Background : Context := {| ctx_timeout := None |}.

Definition WithTimeout (parent : Context) (d : Z) : Context :=
  {| ctx_timeout :=
       match ctx_timeout parent with
       | Some p => Some (Z.min p d)
       | None => Some d
       end |}.

Definition WithCancel (parent : Context) : Context := parent.

End Go.

(* ===================================================================== *)
(** * Part II. [net/http] as the handlers see it *)
(* ===================================================================== *)

Module Http.

(** ** [textproto.CanonicalMIMEHeaderKey] *)

Definition byte_in (lo hi : N) (c : ascii) : bool :=
  (N.leb lo (N_of_ascii c) && N.leb (N_of_ascii c) hi)%bool.

Definition is_lower (c : ascii) : bool := byte_in 97 122 c.
Definition is_upper (c : ascii) : bool := byte_in 65 90 c.
Definition is_digit (c : ascii) : bool := byte_in 48 57 c.

(** The bytes of an HTTP token. *)
Definition validHeaderFieldByte (c : ascii) : bool :=
  (is_lower c || is_upper c || is_digit c
   || existsb (Ascii.eqb c)
        ["!"; "#"; "$"; "%"; "&"; "'"; "*"; "+"; "-"; "."; "^"; "_"; "`";
         "|"; "~"]%char)%bool.

Fixpoint all_bytes (p : ascii -> bool) (s : string) : bool :=
  match s with
  | EmptyString => true
  | String c r => (p c && all_bytes p r)%bool
  end.

Definition to_upper (c : ascii) : ascii :=
  if is_lower c then ascii_of_N (N_of_ascii c - 32) else c.
Definition to_lower (c : ascii) : ascii :=
  if is_upper c then ascii_of_N (N_of_ascii c + 32) else c.

Fixpoint canonical_from (upper : bool) (s : string) : string :=
  match s with
  | EmptyString => EmptyString
  | String c r =>
      let c' := if upper then to_upper c else to_lower c in
      String c' (canonical_from (Ascii.eqb c' "-"%char) r)
  end.

Definition CanonicalMIMEHeaderKey (s : string) : string :=
  if all_bytes validHeaderFieldByte s then canonical_from true s else s.

(** ** [http.Header] *)

Abbreviation Header := (gmap string (list string)).

Definition Header_Values (key : string) (h : Header) : list string :=
  default [] (h !! CanonicalMIMEHeaderKey key).

Definition Header_Get (key : string) (h : Header) : string :=
  match Header_Values key h with
  | v :: _ => v
  | [] => EmptyString
  end.

Definition Header_Set (key value : string) (h : Header) : Header :=
  <[CanonicalMIMEHeaderKey key := [value]]> h.

Definition Header_Add (key value : string) (h : Header) : Header :=
  <[CanonicalMIMEHeaderKey key := (Header_Values key h ++ [value])%list]> h.

(** ** Requests and response writers *)

(** A request, with what [mux] stores in its context once a route matched. *)
Record Request := {
  Method : string;
  URLPath : string;
  ReqHeader : Header;
  CurrentRoute : option string;
  Vars : gmap string string
}.

(** What went on the wire on the first [WriteHeader]: the status and the
    headers as they were at that moment. *)
Record ResponseHead := { Status : Z; SentHeader : Header }.

Record ResponseWriter := {
  rwHeader : Header;
  rwHead : option ResponseHead;
  rwBody : string
}.

Definition newResponseWriter : ResponseWriter :=
  {| rwHeader := ∅; rwHead := None; rwBody := EmptyString |}.

(** [w.Header().Set] and [w.Header().Add]. *)
Definition rw_HeaderSet (key value : string) (w : ResponseWriter)
  : ResponseWriter :=
  {| rwHeader := Header_Set key value (rwHeader w);
     rwHead := rwHead w; rwBody := rwBody w |}.

Definition rw_HeaderAdd (key value : string) (w : ResponseWriter)
  : ResponseWriter :=
  {| rwHeader := Header_Add key value (rwHeader w);
     rwHead := rwHead w; rwBody := rwBody w |}.

(** [w.WriteHeader(code)]: only the first call counts. *)
Definition rw_WriteHeader (code : Z) (w : ResponseWriter) : ResponseWriter :=
  match rwHead w with
  | Some _ => w
  | None =>
      {| rwHeader := rwHeader w;
         rwHead := Some {| Status := code; SentHeader := rwHeader w |};
         rwBody := rwBody w |}
  end.

Definition StatusOK : Z := 200.
Definition StatusMovedPermanently : Z := 301.
Definition StatusBadRequest : Z := 400.
Definition StatusUnauthorized : Z := 401.
Definition StatusNotFound : Z := 404.

(** [w.Write(data)]: writes the header with status 200 if none was
    written, then the data. *)
Definition rw_Write (data : string) (w : ResponseWriter) : ResponseWriter :=
  let w' := rw_WriteHeader StatusOK w in
  {| rwHeader := rwHeader w'; rwHead := rwHead w';
     rwBody := rwBody w' +:+ data |}.

Abbreviation Handler := (ResponseWriter -> Request -> ResponseWriter).

(** [http.NotFound]. *)
Definition http_NotFound : Handler := fun w _ =>
  rw_Write ("404 page not found" +:+ String (ascii_of_N 10) EmptyString)
    (rw_WriteHeader StatusNotFound
       (rw_HeaderSet "X-Content-Type-Options" "nosniff"
          (rw_HeaderSet "Content-Type" "text/plain; charset=utf-8" w))).

Definition status_of (w : ResponseWriter) : option Z :=
  Status <$> rwHead w.

End Http.

(* ===================================================================== *)
(** * Part III. Package [registry] *)
(* ===================================================================== *)

Import Go Http.

(** Go's [error]: the message. *)
Definition error := string.

(** ** [Config] *)

Record StaticLayerConfig := { Ref : string; Type' : string }.

Record RemoteTLSConfig := {
  Authority : string;
  Certificate : string;
  PrivateKey : string
}.

Record RemoteSpecProviderConfig := {
  Addr : string;
  RemoteTLS : option RemoteTLSConfig
}.

Record TLSConfig := { tlsCertificate : string; tlsPrivateKey : string }.

Record HandoverConfig := { Enabled : bool; Sockets : string }.

Record Config := {
  Port : Z;
  Prefix : string;
  StaticLayer : list StaticLayerConfig;
  RemoteSpecProvider : option RemoteSpecProviderConfig;
  Store : string;
  RequireAuth : bool;
  TLS : option TLSConfig;
  Handover : HandoverConfig
}.

(** ** The objects the package builds

    The constructors of the layer sources, of the spec providers, of the
    store and of the config modifier are in other files and packages.  An
    object they build is the constructor applied to the arguments it was
    given; whether the construction fails is asked of the environment
    ([Extern] below). *)

Definition ResolverProvider := string.

Inductive ContentStore := LocalStore (root : string).

(** Modelled from the spec: [api.ImageSpec] is declared in the [api]
    package, which is not among the sources.  Of the fields the spec's
    data model lists, the two image references are kept; [NewRegistry]
    reads [IdeRef] only. *)
Record ImageSpec := { BaseRef : string; IdeRef : string }.

(** The closure [ideRefSource] of [NewRegistry]. *)
Definition ideRefSource (s : ImageSpec) : error + string := inr (IdeRef s).

Inductive LayerSource :=
| SpecMappedImageSource (newResolver : ResolverProvider)
    (refSource : ImageSpec -> error + string)
| FileLayerSource (file : string)
| StaticSourceFromImage (newResolver : ResolverProvider) (ref : string)
| ContentLayerSource.

(** [type CompositeLayerSource []LayerSource]. *)
Definition CompositeLayerSource := list LayerSource.

Inductive ConfigModifier :=
| ConfigModifierFromLayerSource (src : CompositeLayerSource).

(** [credentials.NewTLS] of a key pair loaded from two files and a pool
    holding the PEM certificates read from a third. *)
Record TLSCredentials := {
  credCertFile : string;
  credKeyFile : string;
  credRootCAs : string
}.

Inductive DialOption :=
| WithUnaryInterceptor
| WithStreamInterceptor
| WithTransportCredentials (creds : TLSCredentials)
| WithInsecure.

Inductive ImageSpecProvider :=
| RemoteSpecProvider' (addr : string) (opts : list DialOption)
| CachingSpecProvider (space : Z) (delegate : ImageSpecProvider).

(** Modelled from the spec: [api.ProviderPrefixRemote] is declared in the
    [api] package, which is not among the sources; the spec addresses the
    remote provider as [/v2/remote/...].  Nothing below depends on the
    value. *)
Definition ProviderPrefixRemote : string := "remote".

Record Registry := {
  reg_Config : Config;
  reg_Resolver : ResolverProvider;
  reg_Store : ContentStore;
  reg_LayerSource : CompositeLayerSource;
  reg_ConfigModifier : ConfigModifier;
  reg_SpecProvider : gmap string ImageSpecProvider
}.

(** A [net.Listener]: whether its dynamic type is [*net.TCPListener], and
    where it came from. *)
Record Listener := { isTCPListener : bool; listenerOrigin : string }.

(** ** The trace of calls that leave the package *)

Inductive Level := Debug | Info | Warn | Error | Fatal.

(** The goroutine started by [OfferHandover], with what it captured. *)
Record OfferGoroutine := {
  offer_ctx : Context;
  offer_socketFN : string;
  offer_listener : Listener;
  offer_hasShutdowner : bool
}.

Inductive Event :=
| EvLog (lvl : Level) (msg : string)
| EvNewStore (root : string)
| EvNewFileLayerSource (file : string)
| EvNewStaticSourceFromImage (ref : string)
| EvReadFile (name : string)
| EvLoadX509KeyPair (certFile keyFile : string)
| EvReadDir (name : string)
| EvHandoverReceive (ctx : Context) (socket : string)
| EvListen (network address : string)
| EvGoListenAndServe (addr : string)
| EvGoOffer (g : OfferGoroutine).

(** ** What the libraries decide for a request *)

(** What a router of [mux] does with a request before any handler of the
    package runs.  Its [ServeHTTP] first compares the path with its clean
    form and answers a path that is not clean with a redirect; it then
    looks for a route.  A route that matches hands its handler over,
    unless the router was built with [StrictSlash(true)], as the [distv2]
    router is, and the path and the route differ in the trailing slash:
    then a redirect takes the place of the route's handler.  A request for
    which no route matches goes to the [NotFoundHandler]. *)
Inductive Routed :=
| ToRoute (name : string) (vars : gmap string string)
    (* the route [name] matched, and its own handler is called *)
| ToNotFound
    (* no route matched *)
| ByRouter (answer : Handler).
    (* the router answers by itself: a redirect to the clean path or for
       the trailing slash, or method not allowed *)

(** ** What the environment answers *)

Record Extern := {
  Getenv : string -> string;
  time_Now_Unix : Z;
  local_NewStore_err : string -> option error;
  newMetrics_err : option error;
  NewSpecMappedImageSource_err : option error;
  NewFileLayerSource_err : string -> option error;
  NewStaticSourceFromImage_err : string -> option error;
  NewContentLayerSource_err : option error;
  os_ReadFile : string -> error + string;
  AppendCertsFromPEM : string -> bool;
  LoadX509KeyPair_err : string -> string -> option error;
  NewCachingSpecProvider_err : Z -> option error;
  os_ReadDir : string -> error + list DirEntry;
  handover_ReceiveHandover : Context -> string -> option Listener * option error;
  net_Listen_err : string -> string -> option error;
  (** [http.ServeMux] with the one pattern [/]: the handler with which
      the mux answers a request by itself, instead of handing it to the
      handler registered under [/] (a redirect to the clean path when the
      path of the request is not clean, bad request for the target [*]),
      or [None] when it hands the request on. *)
  ServeMux_answers : Request -> option Handler;
  (** [mux]: what the [distv2] router with the given prefix does with a
      request. *)
  route_match : string -> Request -> Routed;
  (** [r.BasicAuth()]. *)
  BasicAuth : Request -> option (string * string);
  (** [dispatcher(reg.handleManifest)] and [dispatcher(reg.handleBlob)]. *)
  manifestHandler : Handler;
  blobHandler : Handler
}.

(** ** Computations that write the trace *)

Definition M (A : Type) : Type := (list Event * A)%type.

#[global] Instance M_ret : MRet M := fun _ a => ([], a).
#[global] Instance M_bind : MBind M := fun _ _ k m =>
  let '(t1, a) := m in let '(t2, b) := k a in ((t1 ++ t2)%list, b).

Definition emit (e : Event) : M unit := ([e], tt).

Definition trace_of {A} (m : M A) : list Event := fst m.
Definition value_of {A} (m : M A) : A := snd m.

(** [if err != nil { return nil, err }]. *)
Definition try {A B} (m : M (error + A)) (k : A -> M (error + B))
  : M (error + B) :=
  r ← m;
  match r with
  | inl err => mret (inl err)
  | inr a => k a
  end.

Notation "'try!' x ← m ; k" := (try m (fun x => k))
  (at level 20, x name, m at level 100, k at level 200, only parsing).

(** A call that yields an object or an error, seen as its event. *)
Definition call {A} (ev : Event) (err : option error) (obj : A)
  : M (error + A) :=
  _ ← emit ev;
  mret (match err with Some e => inl e | None => inr obj end).

Definition wrap_err {A} (f : error -> error) (m : M (error + A))
  : M (error + A) :=
  r ← m;
  mret (match r with inl e => inl (f e) | inr a => inr a end).

Definition nonempty (s : string) : bool := negb (string_is_empty s).

Section Registry.

Variable X : Extern.

(** ** [NewRegistry] *)

(** The loop over [cfg.StaticLayer]. *)
Fixpoint staticLayers (newResolver : ResolverProvider)
    (sls : list StaticLayerConfig) (layerSources : list LayerSource)
  : M (error + list LayerSource) :=
  match sls with
  | [] => mret (inr layerSources)
  | sl :: rest =>
      if String.eqb (Type' sl) "file" then
        try! src ← wrap_err
            (fun err => "cannot source layer from " +:+ Ref sl +:+ ": " +:+ err)
            (call (EvNewFileLayerSource (Ref sl))
               (NewFileLayerSource_err X (Ref sl))
               (FileLayerSource (Ref sl)));
        staticLayers newResolver rest (layerSources ++ [src])%list
      else if String.eqb (Type' sl) "image" then
        try! src ← wrap_err
            (fun err => "cannot source layer from " +:+ Ref sl +:+ ": " +:+ err)
            (call (EvNewStaticSourceFromImage (Ref sl))
               (NewStaticSourceFromImage_err X (Ref sl))
               (StaticSourceFromImage newResolver (Ref sl)));
        staticLayers newResolver rest (layerSources ++ [src])%list
      else
        mret (inl ("unknown static layer type: " +:+ Type' sl))
  end.

(** The part of [NewRegistry] that collects the dial options of the remote
    spec provider (lines 142 to 186): the two tracing interceptors, then
    transport credentials or [WithInsecure]. *)
Definition remoteDialOptions (rsp : RemoteSpecProviderConfig)
  : M (error + list DialOption) :=
  let opts := [WithUnaryInterceptor; WithStreamInterceptor] in
  match RemoteTLS rsp with
  | Some tls =>
      let ca := Authority tls in
      let crt := Certificate tls in
      let key := PrivateKey tls in
      let root := Getenv X "TELEPRESENCE_ROOT" in
      let ca := if nonempty root then Join [root; ca] else ca in
      let crt := if nonempty root then Join [root; crt] else crt in
      let key := if nonempty root then Join [root; key] else key in
      _ ← emit (EvReadFile ca);
      match os_ReadFile X ca with
      | inl err => mret (inl ("could not read ca certificate: " +:+ err))
      | inr rootCA =>
          if negb (AppendCertsFromPEM X rootCA) then
            mret (inl "failed to append ca certs")
          else
            _ ← emit (EvLoadX509KeyPair crt key);
            match LoadX509KeyPair_err X crt key with
            | Some err =>
                _ ← emit (EvLog Error
                  "Cannot load ws-manager certs - this is a configuration issue.");
                mret (inl ("cannot load ws-manager certs: " +:+ err))
            | None =>
                let creds := {| credCertFile := crt; credKeyFile := key;
                                credRootCAs := rootCA |} in
                _ ← emit (EvLog Debug "using TLS config to connect ws-manager");
                mret (inr (opts ++ [WithTransportCredentials creds])%list)
            end
      end
  | None => mret (inr (opts ++ [WithInsecure])%list)
  end.

Definition NewRegistry (cfg : Config) (newResolver : ResolverProvider)
  : M (error + Registry) :=
  let storePath := Store cfg in
  let tproot := Getenv X "TELEPRESENCE_ROOT" in
  let storePath :=
    if nonempty tproot then Join [tproot; storePath] else storePath in
  try! store ← call (EvNewStore storePath) (local_NewStore_err X storePath)
                 (LocalStore storePath);
  try! _ ← mret (match newMetrics_err X with
                 | Some e => inl e | None => inr tt end);
  let layerSources : list LayerSource := [] in
  try! ideLayerSource ←
    mret (match NewSpecMappedImageSource_err X with
          | Some e => inl e
          | None => inr (SpecMappedImageSource newResolver ideRefSource)
          end);
  let layerSources := (layerSources ++ [ideLayerSource])%list in
  _ ← emit (EvLog Info "preparing static layer");
  try! layerSources ← staticLayers newResolver (StaticLayer cfg) layerSources;
  try! clsrc ←
    mret (match NewContentLayerSource_err X with
          | Some e => inl ("cannot create content layer source: " +:+ e)
          | None => inr ContentLayerSource
          end);
  let layerSources := (layerSources ++ [clsrc])%list in
  let specProvider : gmap string ImageSpecProvider := ∅ in
  try! specProvider ←
    match RemoteSpecProvider cfg with
    | Some rsp =>
        try! opts ← remoteDialOptions rsp;
        match NewCachingSpecProvider_err X 128 with
        | Some e =>
            mret (inl ("cannot create caching spec provider: " +:+ e))
        | None =>
            let specprov :=
              CachingSpecProvider 128 (RemoteSpecProvider' (Addr rsp) opts) in
            mret (inr (<[ProviderPrefixRemote := specprov]> specProvider))
        end
    | None => mret (inr specProvider)
    end;
  let layerSource : CompositeLayerSource := layerSources in
  mret (inr {| reg_Config := cfg;
               reg_Resolver := newResolver;
               reg_Store := store;
               reg_SpecProvider := specProvider;
               reg_LayerSource := layerSource;
               reg_ConfigModifier := ConfigModifierFromLayerSource layerSource |}).

(** ** [ReceiveHandover] *)

(** The loop over the directory entries: [fn] after the last iteration. *)
Definition latestSocket (fs : list DirEntry) : string :=
  fold_left
    (fun fn f =>
       if mode_mul (Type_ f) ModeSocket =? 0 then fn
       else if string_gt (Name f) fn then Name f
       else fn)
    fs EmptyString.

Definition ReceiveHandover (ctx : Context) (loc : string)
  : M (option Listener * option error) :=
  if string_is_empty loc then mret (None, None)
  else
    _ ← emit (EvReadDir loc);
    match os_ReadDir X loc with
    | inl err => mret (None, Some err)
    | inr fs =>
        let fn := latestSocket fs in
        if string_is_empty fn then mret (None, None)
        else
          let fn := Join [loc; fn] in
          _ ← emit (EvLog Debug
                 "found handover socket - attempting listener handover");
          _ ← emit (EvHandoverReceive ctx fn);
          mret (handover_ReceiveHandover X ctx fn)
    end.

(** ** [OfferHandover]

    The channel it returns is identified with the goroutine that sends on
    it and closes it; what the goroutine does is in Part IV. *)

Definition handoverSocketName (now : Z) : string :=
  "rf-handover-" +:+ itoa now +:+ ".sock".

Definition OfferHandover (ctx : Context) (loc : string) (l : Listener)
    (hasShutdowner : bool)
  : M (option OfferGoroutine * option error) :=
  let socketFN := Join [loc; handoverSocketName (time_Now_Unix X)] in
  if string_is_empty socketFN then mret (None, None)
  else if negb (isTCPListener l) then
    mret (None, Some "can only offer handovers for *net.TCPListener")
  else
    let g := {| offer_ctx := ctx; offer_socketFN := socketFN;
                offer_listener := l;
                offer_hasShutdowner := hasShutdowner |} in
    _ ← emit (EvGoOffer g);
    _ ← emit (EvLog Info "offering listener handover");
    mret (Some g, None).

(** ** The HTTP front-end *)

Definition requireAuthentication (h : Handler) : Handler := fun w r =>
  let fail (w : ResponseWriter) :=
    rw_WriteHeader StatusUnauthorized
      (rw_HeaderAdd "WWW-Authenticate" "Basic" w) in
  match BasicAuth X r with
  | None => fail w
  | Some _ =>
      (* todo: implement auth *)
      h w r
  end.

Definition handleAPIBase : Handler := fun w r =>
  let emptyJSON := "{}" in
  let w := rw_HeaderSet "Content-Type" "application/json" w in
  let w := rw_HeaderSet "Content-Length"
             (itoa (Z.of_nat (String.length emptyJSON))) w in
  rw_Write emptyJSON w.

(** [mux.Router], as far as [registerHandler] and the dispatch go: the
    handler of each named route and the handler for requests that match
    no route. *)
Record Router := {
  routerPrefix : string;
  routeHandlers : gmap string Handler;
  NotFoundHandler : option Handler
}.

Definition RouterWithPrefix (prefix : string) : Router :=
  {| routerPrefix := prefix; routeHandlers := ∅; NotFoundHandler := None |}.

Definition RouteNameBase : string := "base".
Definition RouteNameManifest : string := "manifest".
Definition RouteNameTags : string := "tags".
Definition RouteNameBlob : string := "blob".
Definition RouteNameBlobUpload : string := "blob-upload".
Definition RouteNameBlobUploadChunk : string := "blob-upload-chunk".
Definition RouteNameCatalog : string := "catalog".

Definition setRouteHandler (name : string) (h : Handler) (routes : Router)
  : Router :=
  {| routerPrefix := routerPrefix routes;
     routeHandlers := <[name := h]> (routeHandlers routes);
     NotFoundHandler := NotFoundHandler routes |}.

Definition registerHandler (routes : Router) : Router :=
  let routes := setRouteHandler RouteNameBase handleAPIBase routes in
  let routes := setRouteHandler RouteNameManifest (manifestHandler X) routes in
  let routes := setRouteHandler RouteNameBlob (blobHandler X) routes in
  {| routerPrefix := routerPrefix routes;
     routeHandlers := routeHandlers routes;
     NotFoundHandler := Some handleAPIBase |}.

(** [mux.Router.ServeHTTP]: the router's own answer where it redirects;
    else the handler of the matching route, with the route and its
    variables stored in the request; a route without a handler, and no
    match without a [NotFoundHandler], answer as [http.NotFound]. *)
Definition Router_ServeHTTP (routes : Router) : Handler := fun w r =>
  match route_match X (routerPrefix routes) r with
  | ByRouter answer => answer w r
  | ToRoute name vars =>
      match routeHandlers routes !! name with
      | Some h =>
          h w {| Method := Method r; URLPath := URLPath r;
                 ReqHeader := ReqHeader r;
                 CurrentRoute := Some name; Vars := vars |}
      | None => http_NotFound w r
      end
  | ToNotFound =>
      match NotFoundHandler routes with
      | Some h => h w r
      | None => http_NotFound w r
      end
  end.

(** [http.ServeMux.ServeHTTP] of the mux that [Serve] builds, [handler]
    registered under the pattern [/] (lines 216 and 217). *)
Definition ServeMux_ServeHTTP (handler : Handler) : Handler := fun w r =>
  match ServeMux_answers X r with
  | Some answer => answer w r
  | None => handler w r
  end.

(** ** [Serve], up to the point where it blocks *)

(** [reg.srv], with the [ServeMux] as its handler. *)
Record Server := { srvAddr : string; srvHandler : Handler }.

(** Where [Serve] stands after its sequential part: it has returned, or it
    is inside [reg.srv.ServeTLS], or it has started [reg.srv.Serve] in a
    goroutine and waits in the [select].  [hoc] is the handover channel
    ([None] for the nil channel). *)
Inductive Serving :=
| Returned (err : option error)
| InServeTLS (srv : Server) (l : Listener) (certFile keyFile : string)
    (hoc : option OfferGoroutine)
| InSelect (srv : Server) (l : Listener) (hoc : option OfferGoroutine).

(** The part of [Serve] that builds the handler (lines 209 to 217). *)
Definition Serve_handler (reg : Registry) : Handler :=
  let routes := registerHandler (RouterWithPrefix (Prefix (reg_Config reg))) in
  let handler :=
    if RequireAuth (reg_Config reg)
    then requireAuthentication (Router_ServeHTTP routes)
    else Router_ServeHTTP routes in
  ServeMux_ServeHTTP handler.

(** The part of [Serve] that obtains the listener (lines 229 to 248): the
    handed-over one, or its own. *)
Definition Serve_listener (cfg : Config) (addr : string)
  : M (error + Listener) :=
  '(l, err) ←
    (if (Enabled (Handover cfg) && nonempty (Sockets (Handover cfg)))%bool
     then
       let ctx := WithTimeout Background (10 * Second) in
       '(l, err) ← ReceiveHandover ctx (Sockets (Handover cfg));
       _ ← match err with
           | Some _ =>
               emit (EvLog Warn
                 "handover failed - attempting to start socket directly")
           | None => mret tt
           end;
       mret (l, err)
     else mret (None, None));
  match l with
  | Some l => mret (inr l)
  | None =>
      (* there was no handover configured or available *)
      call (EvListen "tcp" addr) (net_Listen_err X "tcp" addr)
        {| isTCPListener := true; listenerOrigin := addr |}
  end.

Definition Serve_start (reg : Registry) : M Serving :=
  let cfg := reg_Config reg in
  let mux := Serve_handler reg in
  _ ← (let addr := Getenv X "REGFAC_NO_TLS_DEBUG" in
       if nonempty addr then emit (EvGoListenAndServe addr) else mret tt);
  let addr := ":" +:+ itoa (Port cfg) in
  r ← Serve_listener cfg addr;
  match r with
  | inl err => mret (Returned (Some err))
  | inr l =>
      let srv := {| srvAddr := addr; srvHandler := mux |} in
      r ← (if Enabled (Handover cfg) then
             let hoctx := WithCancel Background in
             '(hoc, err) ← OfferHandover hoctx (Sockets (Handover cfg)) l true;
             mret (match err with Some e => inl e | None => inr hoc end)
           else mret (inr None));
      match r with
      | inl err => mret (Returned (Some err))
      | inr hoc =>
          match TLS cfg with
          | Some tls =>
              _ ← emit (EvLog Info "HTTPS registry server listening");
              let cert := tlsCertificate tls in
              let key := tlsPrivateKey tls in
              let tproot := Getenv X "TELEPRESENCE_ROOT" in
              let cert := if nonempty tproot then Join [tproot; cert] else cert in
              let key := if nonempty tproot then Join [tproot; key] else key in
              mret (InServeTLS srv l cert key hoc)
          | None => mret (InSelect srv l hoc)
          end
      end
  end.

End Registry.

(* ===================================================================== *)
(** * Part IV. The goroutines of [Serve] *)
(* ===================================================================== *)

(** Three threads of control exist once [Serve_start] is through: [Serve]
    itself, the goroutine of [OfferHandover] (when a handover is offered),
    and the HTTP server.  They meet on two channels: [srvErrChan], buffered
    with room for one error, and the unbuffered handover channel [hoc]. *)

Inductive MainPc :=
| AtServeTLS                        (* return reg.srv.ServeTLS(l, cert, key) *)
| AtSelect                          (* select over srvErrChan and hoc *)
| AtWaitShutdown                    (* the second receive from hoc *)
| ServeReturned (err : option error).

Inductive OfferExit :=
| OfferFailed                       (* handover.OfferHandover returned an error *)
| NoShutdowner                      (* s == nil *)
| ShutdownFailed                    (* s.Shutdown returned an error *)
| ShutdownComplete.

Inductive OfferPc :=
| NoOffer                           (* hoc is nil: there is no goroutine *)
| Offering                          (* in handover.OfferHandover(ctx, socketFN, tcpL) *)
| SendingTrue                       (* handingOverC <- true *)
| ShuttingDown                      (* in s.Shutdown(ctx) *)
| ChannelClosed (why : OfferExit).  (* returned: the deferred close has run *)

Inductive ServerPc :=
| ServerRunning                     (* reg.srv.Serve(l) has not returned *)
| ErrBuffered (err : error)         (* its error sits in srvErrChan *)
| ErrTaken.

Record Threads := {
  mainPc : MainPc;
  offerPc : OfferPc;
  serverPc : ServerPc;
  hasShutdowner : bool
}.

(** What the scheduler and the environment decide. *)
Inductive Action :=
| OfferFails                        (* handover.OfferHandover returns an error *)
| OfferSucceeds                     (* ... returns nil: the handover is initiated *)
| DeliverTrue                       (* the send on hoc meets a receive of Serve *)
| ShutdownReturns (err : option error)
| ServerReturns (err : error)       (* reg.srv.Serve(l) returns; srvErrChan <- err *)
| TakeServerError                   (* the select takes the case <-srvErrChan *)
| ReceiveClosed                     (* Serve receives from the closed hoc *)
| ServeTLSReturns (err : error).

Definition afterSend (t : Threads) : OfferPc :=
  if hasShutdowner t then ShuttingDown else ChannelClosed NoShutdowner.

Definition setMain (m : MainPc) (t : Threads) : Threads :=
  {| mainPc := m; offerPc := offerPc t; serverPc := serverPc t;
     hasShutdowner := hasShutdowner t |}.
Definition setOffer (o : OfferPc) (t : Threads) : Threads :=
  {| mainPc := mainPc t; offerPc := o; serverPc := serverPc t;
     hasShutdowner := hasShutdowner t |}.
Definition setServer (s : ServerPc) (t : Threads) : Threads :=
  {| mainPc := mainPc t; offerPc := offerPc t; serverPc := s;
     hasShutdowner := hasShutdowner t |}.

(** One step; [None] when the action is not enabled. *)
Definition step (t : Threads) (a : Action) : option Threads :=
  match a with
  | OfferFails =>
      match offerPc t with
      | Offering => Some (setOffer (ChannelClosed OfferFailed) t)
      | _ => None
      end
  | OfferSucceeds =>
      match offerPc t with
      | Offering => Some (setOffer SendingTrue t)
      | _ => None
      end
  | DeliverTrue =>
      match offerPc t, mainPc t with
      | SendingTrue, AtSelect =>
          (* handingOver is true: wait for the server to shut down *)
          Some (setMain AtWaitShutdown (setOffer (afterSend t) t))
      | SendingTrue, AtWaitShutdown =>
          Some (setMain (ServeReturned None) (setOffer (afterSend t) t))
      | _, _ => None
      end
  | ShutdownReturns err =>
      match offerPc t with
      | ShuttingDown =>
          Some (setOffer
                  (ChannelClosed
                     (match err with
                      | Some _ => ShutdownFailed
                      | None => ShutdownComplete
                      end)) t)
      | _ => None
      end
  | ServerReturns err =>
      match serverPc t, mainPc t with
      | ServerRunning, AtServeTLS => None
      | ServerRunning, _ => Some (setServer (ErrBuffered err) t)
      | _, _ => None
      end
  | TakeServerError =>
      match mainPc t, serverPc t with
      | AtSelect, ErrBuffered err =>
          Some (setMain (ServeReturned (Some err)) (setServer ErrTaken t))
      | _, _ => None
      end
  | ReceiveClosed =>
      match offerPc t, mainPc t with
      | ChannelClosed _, AtSelect =>
          (* handingOver is false *)
          Some (setMain (ServeReturned None) t)
      | ChannelClosed _, AtWaitShutdown =>
          Some (setMain (ServeReturned None) t)
      | _, _ => None
      end
  | ServeTLSReturns err =>
      match mainPc t with
      | AtServeTLS =>
          Some (setMain (ServeReturned (Some err)) (setServer ErrTaken t))
      | _ => None
      end
  end.

Fixpoint exec (t : Threads) (acts : list Action) : option Threads :=
  match acts with
  | [] => Some t
  | a :: rest =>
      match step t a with
      | Some t' => exec t' rest
      | None => None
      end
  end.

Definition offerThread (hoc : option OfferGoroutine) : OfferPc :=
  match hoc with Some _ => Offering | None => NoOffer end.

Definition offerShutdowner (hoc : option OfferGoroutine) : bool :=
  match hoc with Some g => offer_hasShutdowner g | None => false end.

(** The threads at the moment [Serve] blocks. *)
Definition threads_of (s : Serving) : option Threads :=
  match s with
  | Returned _ => None
  | InServeTLS _ _ _ _ hoc =>
      Some {| mainPc := AtServeTLS; offerPc := offerThread hoc;
              serverPc := ServerRunning;
              hasShutdowner := offerShutdowner hoc |}
  | InSelect _ _ hoc =>
      Some {| mainPc := AtSelect; offerPc := offerThread hoc;
              serverPc := ServerRunning;
              hasShutdowner := offerShutdowner hoc |}
  end.

(** A state of the threads that some run of [Serve] on [reg] reaches. *)
Definition reachable (X : Extern) (reg : Registry) (t : Threads) : Prop :=
  exists t0 acts,
    threads_of (value_of (Serve_start X reg)) = Some t0 /\
    exec t0 acts = Some t.

(** The error with which the HTTP server returned in a run, if it did:
    what [reg.srv.Serve(l)] sent to [srvErrChan], or what
    [reg.srv.ServeTLS] returned. *)
Fixpoint server_error (acts : list Action) : option error :=
  match acts with
  | [] => None
  | ServerReturns err :: _ => Some err
  | ServeTLSReturns err :: _ => Some err
  | _ :: rest => server_error rest
  end.

(** What [Serve] has returned, if it has. *)
Definition Serve_result (t : Threads) : option (option error) :=
  match mainPc t with
  | ServeReturned err => Some err
  | _ => None
  end.

(** Whether the goroutine of [OfferHandover] ever called [s.Shutdown]. *)
Definition shutdownCalled (t : Threads) : bool :=
  match offerPc t with
  | ShuttingDown | ChannelClosed ShutdownFailed
  | ChannelClosed ShutdownComplete => true
  | _ => false
  end.

(** The goroutine of [OfferHandover] has not passed its send. *)
Definition beforeSend (o : OfferPc) : bool :=
  match o with
  | NoOffer | Offering | SendingTrue | ChannelClosed OfferFailed => true
  | ShuttingDown | ChannelClosed _ => false
  end.

(** How the threads stand to each other, [tls] telling whether [Serve]
    went into [ServeTLS]: [Serve] waits for the shutdown only after it
    received [true]; it returned an error only by taking it from the
    server, the goroutine still before its send; and it returned nil only
    from the [select] or the wait after it. *)
Definition consistent (tls : bool) (t : Threads) : Prop :=
  match mainPc t with
  | AtServeTLS => tls = true /\ beforeSend (offerPc t) = true
  | AtSelect => tls = false /\ beforeSend (offerPc t) = true
  | AtWaitShutdown => tls = false /\ beforeSend (offerPc t) = false
  | ServeReturned (Some _) =>
      beforeSend (offerPc t) = true /\ serverPc t = ErrTaken
  | ServeReturned None => tls = false
  end.

Definition servesTLS (cfg : Config) : bool :=
  match TLS cfg with Some _ => true | None => false end.

(** ** [MustServe] *)

(** [log.Fatal] ends the process with status 1. *)
Inductive Outcome := ReturnsNormally | ExitsWith (code : Z).

Definition MustServe (serveErr : option error) : M Outcome :=
  match serveErr with
  | Some err =>
      _ ← emit (EvLog Fatal "cannot serve registry");
      mret (ExitsWith 1)
  | None => mret ReturnsNormally
  end.

(* ===================================================================== *)
(** * Part V. The caching spec provider *)
(* ===================================================================== *)

Module SpecCache.

(** Modelled from the spec: [NewCachingSpecProvider] and the provider's
    [GetSpec] are in another file of the package, which is not among the
    sources.  The spec has image specs cached by their fully-qualified
    name in a bounded LRU, entries evicted by capacity pressure only, and
    negative results not cached.  The cache is the list of its entries,
    most recently used first. *)
Record t := { space : Z; entries : list (string * ImageSpec) }.

(** Modelled from the spec: the cache of a provider
    [CachingSpecProvider space delegate] when it is created. *)
Definition new (space : Z) : t := {| space := space; entries := [] |}.

Definition cacheOf (p : ImageSpecProvider) : option t :=
  match p with
  | CachingSpecProvider space _ => Some (new space)
  | RemoteSpecProvider' _ _ => None
  end.

Fixpoint lookup (name : string) (es : list (string * ImageSpec))
  : option ImageSpec :=
  match es with
  | [] => None
  | (k, v) :: rest => if String.eqb k name then Some v else lookup name rest
  end.

Fixpoint remove (name : string) (es : list (string * ImageSpec))
  : list (string * ImageSpec) :=
  match es with
  | [] => []
  | (k, v) :: rest =>
      if String.eqb k name then remove name rest else (k, v) :: remove name rest
  end.

(** Modelled from the spec: an entry that is added or used becomes the
    most recent one; the least recently used entries beyond the capacity
    are evicted. *)
Definition add (name : string) (spec : ImageSpec) (c : t) : t :=
  {| space := space c;
     entries := firstn (Z.to_nat (space c)) ((name, spec) :: remove name (entries c)) |}.

(** Modelled from the spec: [GetSpec] of the caching provider.  A cached
    name is answered from the cache; otherwise the delegate is asked, and
    its answer cached unless it is an error.  The third component lists
    the names the delegate was asked for. *)
Definition GetSpec (delegate : string -> error + ImageSpec) (name : string)
    (c : t) : (error + ImageSpec) * t * list string :=
  match lookup name (entries c) with
  | Some spec => (inr spec, add name spec c, [])
  | None =>
      match delegate name with
      | inl err => (inl err, c, [name])
      | inr spec => (inr spec, add name spec c, [name])
      end
  end.

(** Modelled from the spec: the names that were answered, each once and
    with the answer of the delegate, the most recently used first, as an
    LRU without bound would hold them.  A name for which the delegate
    fails is not recorded. *)
Definition used (delegate : string -> error + ImageSpec)
    (es : list (string * ImageSpec)) (name : string)
  : list (string * ImageSpec) :=
  match delegate name with
  | inr spec => (name, spec) :: remove name es
  | inl _ => es
  end.

Definition history (delegate : string -> error + ImageSpec)
    (names : list string) : list (string * ImageSpec) :=
  fold_left (used delegate) names [].

(** A run of requests, one after the other. *)
Fixpoint serve (delegate : string -> error + ImageSpec) (names : list string)
    (c : t) : t :=
  match names with
  | [] => c
  | n :: rest => serve delegate rest (snd (fst (GetSpec delegate n c)))
  end.

End SpecCache.

(* ===================================================================== *)
(** * Part VI. What the documentation says, and a sample deployment *)
(* ===================================================================== *)

(** [ReceiveHandover] as its doc comment has it: of the entries that are
    Unix sockets, the one with the greatest name. *)
Definition latestSocket_documented (fs : list DirEntry) : string :=
  fold_left
    (fun fn f => if string_gt (Name f) fn then Name f else fn)
    (filter (fun f => isSocket f = true) fs) EmptyString.

(** Every entry's [Type()] is a file type. *)
Definition file_types (fs : list DirEntry) : Prop :=
  Forall (fun f => is_file_type (Type_ f)) fs.

(** The answer of [requireAuthentication] to a request it rejects. *)
Definition unauthorized (w : ResponseWriter) : ResponseWriter :=
  rw_WriteHeader StatusUnauthorized (rw_HeaderAdd "WWW-Authenticate" "Basic" w).

(** A response that is a registry error envelope carrying [code]: not a
    success, and the code is in the body. *)
Definition carries_code (code : string) (w : ResponseWriter) : Prop :=
  status_of w <> Some StatusOK /\
  exists n, String.index 0 code (rwBody w) = Some n.

(** Requests that match no route are answered [UNSUPPORTED]. *)
Definition unmatched_answered_unsupported (X : Extern) (prefix : string)
  : Prop :=
  forall r,
    route_match X prefix r = ToNotFound ->
    carries_code "UNSUPPORTED"
      (Router_ServeHTTP X (registerHandler X (RouterWithPrefix prefix))
         newResponseWriter r).

(** Every request without credentials is answered 401 with
    [WWW-Authenticate: Basic] by the handler that [Serve] installs. *)
Definition rejects_without_credentials (X : Extern) (reg : Registry) : Prop :=
  forall r,
    BasicAuth X r = None ->
    let w' := Serve_handler X reg newResponseWriter r in
    status_of w' = Some StatusUnauthorized /\
    exists head,
      rwHead w' = Some head /\
      In "Basic" (Header_Values "WWW-Authenticate" (SentHeader head)).

(** After a failed offer the donor keeps serving: [Serve] does not return
    nil. *)
Definition donor_keeps_serving (X : Extern) (reg : Registry) : Prop :=
  forall t,
    reachable X reg t ->
    offerPc t = ChannelClosed OfferFailed ->
    Serve_result t <> Some None.

(** A file name: not empty, without separator, neither [.] nor [..]. *)
Fixpoint has_slash (s : string) : bool :=
  match s with
  | EmptyString => false
  | String c r => (Ascii.eqb c slash || has_slash r)%bool
  end.

Definition file_name (n : string) : Prop :=
  has_slash n = false /\ string_is_empty n = false /\
  String.eqb n "." = false /\ String.eqb n ".." = false.

(** What [Clean] keeps in its buffer: elements that are not empty, not
    [.], and hold no separator. *)
Definition path_elem (e : string) : Prop :=
  has_slash e = false /\ string_is_empty e = false /\ String.eqb e "." = false.

(** The path of the entry [name] of the directory [dir], [dir] being
    clean. *)
Definition entry_path (dir name : string) : string :=
  if String.eqb dir "." then name
  else if String.eqb dir "/" then "/" +:+ name
  else dir +:+ "/" +:+ name.

(** A configured path as the process must open it: under
    [TELEPRESENCE_ROOT] when that is set. *)
Definition underRoot (X : Extern) (path : string) : string :=
  if nonempty (Getenv X "TELEPRESENCE_ROOT")
  then Join [Getenv X "TELEPRESENCE_ROOT"; path]
  else path.

(** The listener that [Serve] binds itself: [net.Listen("tcp", addr)]. *)
Definition ownListener (addr : string) : Listener :=
  {| isTCPListener := true; listenerOrigin := addr |}.

Definition serving_listener (s : Serving) : option Listener :=
  match s with
  | Returned _ => None
  | InServeTLS _ l _ _ _ => Some l
  | InSelect _ l _ => Some l
  end.

Module Sample.

(** A directory with one handover socket left by a donor. *)
Definition socketDir : list DirEntry :=
  [ {| Name := "rf-handover-1620000000.sock"; Type_ := ModeSocket |} ].

(** A request with valid credentials [user:secret]. *)
Definition authorized : Header :=
  {[ "Authorization" := ["Basic dXNlcjpzZWNyZXQ="] ]}.

(** [cleanPath], the same in [net/http] and in [mux]: the canonical form
    of a request path, rooted, cleaned as [path.Clean] does, the trailing
    slash kept. *)
Fixpoint ends_with_slash (s : string) : bool :=
  match s with
  | EmptyString => false
  | String c EmptyString => Ascii.eqb c slash
  | String _ r => ends_with_slash r
  end.

Definition cleanPath (p : string) : string :=
  match p with
  | EmptyString => "/"
  | String c _ =>
      let p := if Ascii.eqb c slash then p else "/" +:+ p in
      let np := Clean p in
      if (ends_with_slash p && negb (String.eqb np "/"))%bool
      then np +:+ "/" else np
  end.

Definition quote : string := String (ascii_of_N 34) EmptyString.
Definition newline : string := String (ascii_of_N 10) EmptyString.

(** [http.Redirect] to a clean absolute path that holds nothing to
    escape: the [Location] header, a content type and a short HTML body
    for [GET] when the response had no content type yet. *)
Definition redirect (url : string) (code : Z) : Handler := fun w r =>
  let hadCT :=
    match rwHeader w !! "Content-Type" with Some _ => true | None => false end in
  let isGet := String.eqb (Method r) "GET" in
  let isHead := String.eqb (Method r) "HEAD" in
  let w := rw_HeaderSet "Location" url w in
  let w := if (negb hadCT && (isGet || isHead))%bool
           then rw_HeaderSet "Content-Type" "text/html; charset=utf-8" w
           else w in
  let w := rw_WriteHeader code w in
  if (negb hadCT && isGet)%bool
  then rw_Write ("<a href=" +:+ quote +:+ url +:+ quote
                 +:+ ">Moved Permanently</a>." +:+ newline +:+ newline) w
  else w.

(** The redirect of [mux.Router.ServeHTTP] to the clean path: the
    [Location] header and the status, no body. *)
Definition routerRedirect (url : string) : Handler := fun w _ =>
  rw_WriteHeader StatusMovedPermanently (rw_HeaderSet "Location" url w).

(** The answer of [http.ServeMux] to the request target [*], the request
    being HTTP/1.1. *)
Definition badRequest : Handler := fun w _ =>
  rw_WriteHeader StatusBadRequest (rw_HeaderSet "Connection" "close" w).

(** The mux with the one pattern [/]: [*] is a bad request; the path of
    a [CONNECT] is taken as it is; every other path that is not clean is
    redirected to its clean form. *)
Definition serveMux (r : Request) : option Handler :=
  if String.eqb (URLPath r) "*" then Some badRequest
  else if String.eqb (Method r) "CONNECT" then
    match URLPath r with
    | String c _ => if Ascii.eqb c slash then None else Some http_NotFound
    | EmptyString => Some http_NotFound
    end
  else if String.eqb (cleanPath (URLPath r)) (URLPath r) then None
  else Some (redirect (cleanPath (URLPath r)) StatusMovedPermanently).

(** The router: a path that is not clean is redirected; only the base
    route [/v2/] is there to match, and [/v2] is redirected to it. *)
Definition router (prefix : string) (r : Request) : Routed :=
  if negb (String.eqb (cleanPath (URLPath r)) (URLPath r))
  then ByRouter (routerRedirect (cleanPath (URLPath r)))
  else if String.eqb (URLPath r) (prefix +:+ "/v2/")
  then ToRoute RouteNameBase ∅
  else if String.eqb (URLPath r) (prefix +:+ "/v2")
  then ByRouter (redirect (URLPath r +:+ "/") StatusMovedPermanently)
  else ToNotFound.

(** An environment in which nothing fails: every constructor succeeds, a
    donor is ready to hand its listener over, the port is free, and the
    libraries route as above. *)
Definition env (tproot : string) : Extern :=
  {| Getenv := fun key =>
       if String.eqb key "TELEPRESENCE_ROOT" then tproot else EmptyString;
     time_Now_Unix := 1620000123;
     local_NewStore_err := fun _ => None;
     newMetrics_err := None;
     NewSpecMappedImageSource_err := None;
     NewFileLayerSource_err := fun _ => None;
     NewStaticSourceFromImage_err := fun _ => None;
     NewContentLayerSource_err := None;
     os_ReadFile := fun _ => inr "PEM";
     AppendCertsFromPEM := fun _ => true;
     LoadX509KeyPair_err := fun _ _ => None;
     NewCachingSpecProvider_err := fun size =>
       if size <=? 0 then Some "Must provide a positive size" else None;
     os_ReadDir := fun _ => inr socketDir;
     handover_ReceiveHandover := fun _ fn =>
       (Some {| isTCPListener := true; listenerOrigin := fn |}, None);
     net_Listen_err := fun _ _ => None;
     ServeMux_answers := serveMux;
     route_match := router;
     BasicAuth := fun r =>
       if String.eqb (Header_Get "Authorization" (ReqHeader r))
            "Basic dXNlcjpzZWNyZXQ="
       then Some ("user", "secret") else None;
     manifestHandler := http_NotFound;
     blobHandler := http_NotFound |}.

Definition config : Config :=
  {| Port := 8080;
     Prefix := EmptyString;
     StaticLayer :=
       [ {| Ref := "/layers/ide.tar.gz"; Type' := "file" |};
         {| Ref := "docker.io/gitpod/supervisor:latest"; Type' := "image" |} ];
     RemoteSpecProvider :=
       Some {| Addr := "ws-manager:8080";
               RemoteTLS := Some {| Authority := "/certs/ca.crt";
                                    Certificate := "/certs/tls.crt";
                                    PrivateKey := "/certs/tls.key" |} |};
     Store := "/mnt/cache/registry";
     RequireAuth := true;
     TLS := None;
     Handover := {| Enabled := true; Sockets := "/var/run/rf" |} |}.

Definition configTLS : Config :=
  {| Port := Port config; Prefix := Prefix config;
     StaticLayer := StaticLayer config;
     RemoteSpecProvider := RemoteSpecProvider config;
     Store := Store config; RequireAuth := RequireAuth config;
     TLS := Some {| tlsCertificate := "/certs/srv.crt";
                    tlsPrivateKey := "/certs/srv.key" |};
     Handover := Handover config |}.

Definition registry (cfg : Config) : Registry :=
  {| reg_Config := cfg;
     reg_Resolver := "docker";
     reg_Store := LocalStore (Store cfg);
     reg_LayerSource := [];
     reg_ConfigModifier := ConfigModifierFromLayerSource [];
     reg_SpecProvider := ∅ |}.

Definition request (path : string) (h : Header) : Request :=
  {| Method := "GET"; URLPath := path; ReqHeader := h;
     CurrentRoute := None; Vars := ∅ |}.

End Sample.

(* ===================================================================== *)
(** * Part VI, continued. The request context and the dispatcher *)
(* ===================================================================== *)

(** ** [interface{}]

    The values that pass through [context.Context.Value] here: nil, a
    string, the map of route variables, or a value of another type. *)
Inductive Any :=
| AnyNil
| AnyString (s : string)
| AnyVars (vars : gmap string string)
| AnyOther (tag : string).

(** A [context.Context], as far as its method [Value] goes. *)
Abbreviation Values := (Any -> Any).

(** ** [strings.HasPrefix] and [strings.TrimPrefix] *)

Fixpoint HasPrefix (s prefix : string) {struct prefix} : bool :=
  match prefix, s with
  | EmptyString, _ => true
  | String p prefix', String c s' => (Ascii.eqb c p && HasPrefix s' prefix')%bool
  | String _ _, EmptyString => false
  end.

Fixpoint drop_bytes (n : nat) (s : string) : string :=
  match n, s with
  | O, _ => s
  | S n', String _ s' => drop_bytes n' s'
  | S _, EmptyString => EmptyString
  end.

Definition TrimPrefix (s prefix : string) : string :=
  if HasPrefix s prefix then drop_bytes (String.length prefix) s else s.

(** ** [muxVarsContext] *)

Record muxVarsContext := {
  mvc_Context : Values;
  mvc_vars : gmap string string
}.

Definition muxVarsContext_Value (ctx : muxVarsContext) (key : Any) : Any :=
  match key with
  | AnyString keyStr =>
      if String.eqb keyStr "vars" then AnyVars (mvc_vars ctx)
      else
        let keyStr :=
          if HasPrefix keyStr "vars." then TrimPrefix keyStr "vars."
          else keyStr in
        match mvc_vars ctx !! keyStr with
        | Some v => AnyString v
        | None => mvc_Context ctx key
        end
  | _ => mvc_Context ctx key
  end.

(** ** The getters *)

Definition getName (ctx : Values) : string :=
  match ctx (AnyString "vars.name") with
  | AnyString sval => sval
  | _ => EmptyString
  end.

Definition getSpecProviderName (ctx : Values) : string * string :=
  let name := getName ctx in
  let segs := split_slash name in
  if (1 <? length segs)%nat
  then (hd EmptyString segs, join_slash (tl segs))
  else (EmptyString, EmptyString).

Definition getReference (ctx : Values) : string :=
  match ctx (AnyString "vars.reference") with
  | AnyString sval => sval
  | _ => EmptyString
  end.

Definition getDigest (ctx : Values) : string :=
  match ctx (AnyString "vars.digest") with
  | AnyString sval => sval
  | _ => EmptyString
  end.

(** ** [nameRequired] *)

Definition nameRequired (r : Request) : bool :=
  match CurrentRoute r with
  | None => true
  | Some routeName =>
      (negb (String.eqb routeName RouteNameBase)
       && negb (String.eqb routeName RouteNameCatalog))%bool
  end.

(** ** [dispatcher] and [respondWithError] *)

(** A [reference.Named], as far as its method [Name] goes. *)
Record Named := { Named_Name : string }.

(** [distribution.ErrRepositoryNameInvalid]. *)
Record ErrRepositoryNameInvalid := { err_Name : string; err_Reason : error }.

(** What became of a request: the handler returned, having written to the
    response, or it panicked on a nil reference. *)
Inductive Served := Answered (w : ResponseWriter) | Panicked.

(** What the dispatcher printed on standard error, and what became of the
    request. *)
Record Dispatched := { stderr : string; served : Served }.

Section Dispatcher.

(** [httputil.DumpRequest(r, false)], as a string. *)
Variable DumpRequest : Request -> string.

(** [r.Context()]. *)
Variable requestContext : Request -> Values.

(** [reference.WithName]: a reference or nil, an error or nil. *)
Variable WithName : string -> option Named * option error.

(** [errcode.ServeJSON]. *)
Variable ServeJSON :
  ErrRepositoryNameInvalid -> ResponseWriter -> ResponseWriter * option error.

Definition respondWithError (w : ResponseWriter) (terr : ErrRepositoryNameInvalid)
  : M ResponseWriter :=
  let '(w', err) := ServeJSON terr w in
  match err with
  | Some _ =>
      _ ← emit (EvLog Error "error serving error json");
      mret w'
  | None => mret w'
  end.

(** The context that the dispatcher hands on: the request's, under the
    route variables. *)
Definition dispatchContext (r : Request) : Values :=
  muxVarsContext_Value
    {| mvc_Context := requestContext r; mvc_vars := Vars r |}.

Definition dispatcher (d : Values -> Request -> Handler)
    (w : ResponseWriter) (r : Request) : M Dispatched :=
  let fc := DumpRequest r in
  let ctx := dispatchContext r in
  if nameRequired r then
    let '(nameRef, err) := WithName (getName ctx) in
    match err with
    | Some err =>
        _ ← emit (EvLog Error "error parsing reference from context");
        match nameRef with
        | None =>
            (* nameRef.Name() on the nil reference *)
            mret {| stderr := fc; served := Panicked |}
        | Some nameRef =>
            w' ← respondWithError w
                   {| err_Name := Named_Name nameRef; err_Reason := err |};
            mret {| stderr := fc; served := Answered w' |}
        end
    | None =>
        mret {| stderr := fc; served := Answered (d ctx r w r) |}
    end
  else
    mret {| stderr := fc; served := Answered (d ctx r w r) |}.

End Dispatcher.

(** ** More of [NewRegistry] and the sample deployment *)

(** The layer source that the loop of [NewRegistry] builds for a static
    layer of a known type. *)
Definition staticLayerSource (newResolver : ResolverProvider)
    (sl : StaticLayerConfig) : LayerSource :=
  if String.eqb (Type' sl) "file" then FileLayerSource (Ref sl)
  else StaticSourceFromImage newResolver (Ref sl).

Definition knownLayerType (sl : StaticLayerConfig) : bool :=
  (String.eqb (Type' sl) "file" || String.eqb (Type' sl) "image")%bool.

(** The transport option of the remote spec provider that goes with its
    TLS configuration. *)
Definition transportOption (X : Extern) (rsp : RemoteSpecProviderConfig)
    (rootCA : string) : DialOption :=
  match RemoteTLS rsp with
  | Some tls =>
      WithTransportCredentials
        {| credCertFile := underRoot X (Certificate tls);
           credKeyFile := underRoot X (PrivateKey tls);
           credRootCAs := rootCA |}
  | None => WithInsecure
  end.

Module SampleDispatch.

Definition DumpRequest (r : Request) : string :=
  Method r +:+ " " +:+ URLPath r.

Definition requestContext (r : Request) : Values := fun _ => AnyNil.

(** A name is refused when it is empty, and then no reference comes
    back. *)
Definition WithName (name : string) : option Named * option error :=
  if string_is_empty name then (None, Some "invalid reference format")
  else (Some {| Named_Name := name |}, None).

Definition ServeJSON (terr : ErrRepositoryNameInvalid) (w : ResponseWriter)
  : ResponseWriter * option error :=
  (rw_Write "NAME_INVALID" (rw_WriteHeader 400 w), None).

(** A dispatch function that answers with the name it finds. *)
Definition echoName (ctx : Values) (r : Request) : Handler :=
  fun w _ => rw_Write (getName ctx) w.

Definition manifestRequest (name : string) : Request :=
  {| Method := "GET"; URLPath := "/v2/" +:+ name +:+ "/manifests/latest";
     ReqHeader := ∅; CurrentRoute := Some RouteNameManifest;
     Vars := {[ "name" := name; "reference" := "latest" ]} |}.

End SampleDispatch.

(* ===================================================================== *)
(** * Part VII. Properties *)
(* ===================================================================== *)

(** ** The socket test of [ReceiveHandover] *)

Lemma file_type_low_bits (t : FileMode) :
  is_file_type t -> t mod 2 ^ 19 = 0.
Proof.
  intros [_ Hbits]. rewrite <- Hbits.
  rewrite <- (Z.land_ones _ 19) by lia.
  rewrite <- Z.land_assoc.
  replace (Z.land ModeType (Z.ones 19)) with 0 by reflexivity.
  apply Z.land_0_r.
Qed.

(** A file type times [ModeSocket] wraps around to zero: its lowest set
    bit is bit 19 or above, so every bit of the product is bit 43 or
    above. *)
Lemma mode_mul_ModeSocket (t : FileMode) :
  is_file_type t -> mode_mul t ModeSocket = 0.
Proof.
  intros Ht. pose proof (file_type_low_bits t Ht) as Hlow.
  unfold mode_mul, uint32.
  rewrite (Z.div_mod t (2 ^ 19)) by lia. rewrite Hlow, Z.add_0_r.
  replace (2 ^ 19 * (t / 2 ^ 19) * ModeSocket)
    with ((t / 2 ^ 19 * 2 ^ 11) * 2 ^ 32).
  - apply Z.mod_mul. lia.
  - change ModeSocket with (2 ^ 24). lia.
Qed.

Lemma ModeSocket_is_file_type : is_file_type ModeSocket.
Proof. split; [ split; [ discriminate | reflexivity ] | reflexivity ]. Qed.

Lemma latestSocket_loop_skips (fs : list DirEntry) (fn : string) :
  file_types fs ->
  fold_left
    (fun fn f =>
       if mode_mul (Type_ f) ModeSocket =? 0 then fn
       else if string_gt (Name f) fn then Name f
       else fn) fs fn = fn.
Proof.
  induction 1 as [| f fs Hf _ IH]; simpl.
  - reflexivity.
  - rewrite (mode_mul_ModeSocket _ Hf). simpl. apply IH.
Qed.

Lemma latestSocket_skips_all (fs : list DirEntry) :
  file_types fs -> latestSocket fs = EmptyString.
Proof. apply latestSocket_loop_skips. Qed.

(** Whatever the directory holds, [ReceiveHandover] returns [nil, nil] or
    the error of [os.ReadDir], and never calls into the [handover]
    package. *)
Lemma ReceiveHandover_no_attempt (X : Extern) (ctx : Context) (loc : string) :
  (forall fs, os_ReadDir X loc = inr fs -> file_types fs) ->
  fst (value_of (ReceiveHandover X ctx loc)) = None /\
  forall c fn, ~ In (EvHandoverReceive c fn) (trace_of (ReceiveHandover X ctx loc)).
Proof.
  intros Hdir. unfold ReceiveHandover.
  destruct (string_is_empty loc) eqn:Hloc.
  - split; [ reflexivity | intros c fn [] ].
  - destruct (os_ReadDir X loc) as [err | fs] eqn:Hread; cbn.
    + split; [ reflexivity | intros c fn [ H | [] ]; discriminate H ].
    + rewrite (latestSocket_skips_all fs (Hdir fs eq_refl)). cbn.
      split; [ reflexivity | intros c fn [ H | [] ]; discriminate H ].
Qed.

(** C1 (the code departs from its own documentation).  The handover
    directory holds one entry, the Unix socket that a donor published and
    through which it would hand its listener over.  The documented
    selection picks it; the loop of [ReceiveHandover] skips it, so the
    function reads the directory and returns [nil, nil] without attempting
    the handover. *)
Theorem ReceiveHandover_skips_the_socket :
  let X := Sample.env EmptyString in
  let ctx := WithTimeout Background (10 * Second) in
  os_ReadDir X "/var/run/rf" = inr Sample.socketDir /\
  forallb isSocket Sample.socketDir = true /\
  latestSocket_documented Sample.socketDir = "rf-handover-1620000000.sock" /\
  fst (handover_ReceiveHandover X ctx "/var/run/rf/rf-handover-1620000000.sock")
    <> None /\
  latestSocket Sample.socketDir = EmptyString /\
  ReceiveHandover X ctx "/var/run/rf"
    = ([EvReadDir "/var/run/rf"], (None, None)).
Proof.
  cbv zeta. repeat split; try reflexivity. discriminate.
Qed.

(** ** Response headers *)

Lemma Header_Values_Add (key value : string) (h : Header) :
  Header_Values key (Header_Add key value h)
  = (Header_Values key h ++ [value])%list.
Proof.
  unfold Header_Add. unfold Header_Values at 1.
  rewrite lookup_insert_eq. reflexivity.
Qed.

Lemma Header_Get_Set (key value : string) (h : Header) :
  Header_Get key (Header_Set key value h) = value.
Proof.
  unfold Header_Get, Header_Values, Header_Set.
  rewrite lookup_insert_eq. reflexivity.
Qed.

Lemma Header_Get_Set_other (key key' value : string) (h : Header) :
  CanonicalMIMEHeaderKey key' <> CanonicalMIMEHeaderKey key ->
  Header_Get key (Header_Set key' value h) = Header_Get key h.
Proof.
  intros Hne. unfold Header_Get, Header_Values, Header_Set.
  rewrite lookup_insert_ne by exact Hne. reflexivity.
Qed.

Lemma append_length (s1 s2 : string) :
  String.length (s1 +:+ s2) = (String.length s1 + String.length s2)%nat.
Proof. induction s1 as [| c s1 IH]; simpl; [ reflexivity | now rewrite IH ]. Qed.

(** ** [requireAuthentication] *)

Lemma requireAuthentication_rejects (X : Extern) (h : Handler)
    (w : ResponseWriter) (r : Request) :
  BasicAuth X r = None -> requireAuthentication X h w r = unauthorized w.
Proof. intros Hauth. unfold requireAuthentication. now rewrite Hauth. Qed.

Lemma requireAuthentication_forwards (X : Extern) (h : Handler)
    (w : ResponseWriter) (r : Request) (username password : string) :
  BasicAuth X r = Some (username, password) ->
  requireAuthentication X h w r = h w r.
Proof. intros Hauth. unfold requireAuthentication. now rewrite Hauth. Qed.

Lemma unauthorized_head (w : ResponseWriter) :
  rwHead w = None ->
  rwHead (unauthorized w)
  = Some {| Status := StatusUnauthorized;
            SentHeader := Header_Add "WWW-Authenticate" "Basic" (rwHeader w) |}.
Proof.
  intros Hfresh. unfold unauthorized, rw_WriteHeader. simpl.
  now rewrite Hfresh.
Qed.

Lemma unauthorized_body (w : ResponseWriter) :
  rwBody (unauthorized w) = rwBody w.
Proof.
  unfold unauthorized, rw_WriteHeader. simpl. now destruct (rwHead w).
Qed.

(** ** The mux in front of the handler *)

Lemma ServeMux_hands_on (X : Extern) (handler : Handler)
    (w : ResponseWriter) (r : Request) :
  ServeMux_answers X r = None ->
  ServeMux_ServeHTTP X handler w r = handler w r.
Proof. intros Hmux. unfold ServeMux_ServeHTTP. now rewrite Hmux. Qed.

Lemma ServeMux_answers_itself (X : Extern) (handler answer : Handler)
    (w : ResponseWriter) (r : Request) :
  ServeMux_answers X r = Some answer ->
  ServeMux_ServeHTTP X handler w r = answer w r.
Proof. intros Hmux. unfold ServeMux_ServeHTTP. now rewrite Hmux. Qed.

(** A request that the mux hands on and that passes the authentication,
    where that is required, is the router's. *)
Lemma Serve_handler_passes (X : Extern) (reg : Registry)
    (w : ResponseWriter) (r : Request) :
  ServeMux_answers X r = None ->
  RequireAuth (reg_Config reg) = false \/ BasicAuth X r <> None ->
  Serve_handler X reg w r
  = Router_ServeHTTP X
      (registerHandler X (RouterWithPrefix (Prefix (reg_Config reg)))) w r.
Proof.
  intros Hmux Hauth. unfold Serve_handler.
  rewrite (ServeMux_hands_on X _ w r Hmux).
  destruct (RequireAuth (reg_Config reg)) eqn:Hreq; [ | reflexivity ].
  destruct Hauth as [Hauth | Hauth]; [ discriminate Hauth | ].
  destruct (BasicAuth X r) as [[username password] |] eqn:Hbasic;
    [ | contradiction ].
  now apply (requireAuthentication_forwards X _ w r username password).
Qed.

(** C6, the claim as the spec has it, fails: the mux that [Serve] puts in
    front of the handler answers a request whose path is not clean with a
    redirect before [requireAuthentication] runs.  The request [GET //v2/]
    without credentials is answered 301, with no [WWW-Authenticate]
    header. *)
Lemma redirected_before_authentication :
  ~ rejects_without_credentials (Sample.env EmptyString)
      (Sample.registry Sample.config).
Proof.
  intros Hclaim.
  assert (BasicAuth (Sample.env EmptyString) (Sample.request "//v2/" ∅) = None)
    as Hauth by reflexivity.
  destruct (Hclaim (Sample.request "//v2/" ∅) Hauth) as [Hstatus _].
  vm_compute in Hstatus. discriminate Hstatus.
Qed.

(** C6, amended.  With [requireAuth] set, a request for which
    [r.BasicAuth()] is not ok and which the mux hands to the handler is
    answered with status 401 and the header [WWW-Authenticate: Basic],
    without a body; a request that the mux answers by itself gets the
    answer of the mux.  Either way the answer is the same whatever handler
    is wrapped: the registry's is not called. *)
Theorem requireAuth_rejects_without_credentials (X : Extern) (reg : Registry)
    (w : ResponseWriter) (r : Request) :
  RequireAuth (reg_Config reg) = true ->
  BasicAuth X r = None ->
  rwHead w = None ->
  let w' := Serve_handler X reg w r in
  (ServeMux_answers X r = None ->
   w' = unauthorized w /\
   status_of w' = Some 401 /\
   (exists head, rwHead w' = Some head /\
      In "Basic" (Header_Values "WWW-Authenticate" (SentHeader head))) /\
   rwBody w' = rwBody w) /\
  (forall answer, ServeMux_answers X r = Some answer -> w' = answer w r) /\
  (forall h : Handler,
     ServeMux_ServeHTTP X (requireAuthentication X h) w r = w').
Proof.
  intros Hreq Hauth Hfresh w'. subst w'. unfold Serve_handler.
  rewrite Hreq. split; [ | split ].
  - intros Hmux. rewrite (ServeMux_hands_on X _ w r Hmux).
    rewrite (requireAuthentication_rejects X _ w r Hauth).
    split; [ reflexivity | ].
    unfold status_of. rewrite (unauthorized_head w Hfresh). simpl.
    repeat split.
    + eexists. split; [ reflexivity | ]. simpl.
      rewrite Header_Values_Add. apply in_or_app. right. now left.
    + apply unauthorized_body.
  - intros answer Hmux. now apply ServeMux_answers_itself.
  - intros h. unfold ServeMux_ServeHTTP.
    destruct (ServeMux_answers X r); [ reflexivity | ].
    now rewrite !(requireAuthentication_rejects X _ w r Hauth).
Qed.

(** In the sample deployment, the requests [GET /v2/] and [GET //v2/]
    without headers: the first is rejected, the second redirected. *)
Lemma requireAuth_rejects_without_credentials_witness :
  let X := Sample.env EmptyString in
  let reg := Sample.registry Sample.config in
  (let w' := Serve_handler X reg newResponseWriter (Sample.request "/v2/" ∅) in
   w' = unauthorized newResponseWriter /\
   status_of w' = Some 401 /\
   (exists head, rwHead w' = Some head /\
      In "Basic" (Header_Values "WWW-Authenticate" (SentHeader head))) /\
   rwBody w' = EmptyString) /\
  (let r := Sample.request "//v2/" ∅ in
   Serve_handler X reg newResponseWriter r
   = Sample.redirect "/v2/" 301 newResponseWriter r).
Proof.
  intros X reg. split.
  - exact (proj1 (requireAuth_rejects_without_credentials X reg
                    newResponseWriter (Sample.request "/v2/" ∅)
                    eq_refl eq_refl eq_refl) eq_refl).
  - intros r.
    exact (proj1 (proj2 (requireAuth_rejects_without_credentials X reg
                           newResponseWriter r eq_refl eq_refl eq_refl))
             _ eq_refl).
Defined.

(** C7.  [requireAuthentication] never looks at the credentials: a request
    whose Basic header parses is handed to the wrapped handler whatever
    the user name and password are, and the wrapper answers 401 on its
    own account exactly when the header is absent or does not parse. *)
Theorem requireAuthentication_checks_syntax_only (X : Extern)
    (w : ResponseWriter) (r : Request) :
  (forall (h : Handler) username password,
     BasicAuth X r = Some (username, password) ->
     requireAuthentication X h w r = h w r) /\
  (BasicAuth X r = None <->
   forall h : Handler, requireAuthentication X h w r = unauthorized w).
Proof.
  split; [ | split ].
  - intros h u p. apply requireAuthentication_forwards.
  - intros Hauth h. now apply requireAuthentication_rejects.
  - intros Hall. destruct (BasicAuth X r) as [[u p] |] eqn:Hauth; [ | reflexivity ].
    exfalso.
    specialize (Hall (fun w _ => rw_Write "denied" w)).
    rewrite (requireAuthentication_forwards X _ w r u p Hauth) in Hall.
    apply (f_equal (fun w => String.length (rwBody w))) in Hall.
    rewrite unauthorized_body in Hall. unfold rw_Write in Hall. simpl in Hall.
    rewrite append_length in Hall. simpl in Hall.
    replace (rwBody (rw_WriteHeader StatusOK w)) with (rwBody w) in Hall
      by (unfold rw_WriteHeader; now destruct (rwHead w)).
    lia.
Qed.

(** In the sample deployment, a request with a Basic header that parses. *)
Lemma requireAuthentication_checks_syntax_only_witness :
  let X := Sample.env EmptyString in
  let r := Sample.request "/v2/" Sample.authorized in
  BasicAuth X r = Some ("user", "secret") /\
  forall h : Handler,
    requireAuthentication X h newResponseWriter r = h newResponseWriter r.
Proof.
  split; [ reflexivity | ].
  intros h.
  exact (proj1 (requireAuthentication_checks_syntax_only
                  (Sample.env EmptyString) newResponseWriter
                  (Sample.request "/v2/" Sample.authorized))
           h "user" "secret" eq_refl).
Defined.

(** ** Routing *)

Lemma registerHandler_NotFoundHandler (X : Extern) (routes : Router) :
  NotFoundHandler (registerHandler X routes) = Some handleAPIBase.
Proof. reflexivity. Qed.

Lemma registerHandler_prefix (X : Extern) (prefix : string) :
  routerPrefix (registerHandler X (RouterWithPrefix prefix)) = prefix.
Proof. reflexivity. Qed.

Lemma registerHandler_handlers (X : Extern) (prefix name : string) :
  name <> RouteNameBase -> name <> RouteNameManifest -> name <> RouteNameBlob ->
  routeHandlers (registerHandler X (RouterWithPrefix prefix)) !! name = None.
Proof.
  intros Hbase Hmanifest Hblob. simpl.
  rewrite !lookup_insert_ne by congruence. apply lookup_empty.
Qed.

Lemma handleAPIBase_answer (w : ResponseWriter) (r : Request) :
  rwHead w = None ->
  let w' := handleAPIBase w r in
  status_of w' = Some StatusOK /\
  rwBody w' = rwBody w +:+ "{}" /\
  exists head,
    rwHead w' = Some head /\
    Header_Get "Content-Type" (SentHeader head) = "application/json" /\
    Header_Get "Content-Length" (SentHeader head) = "2".
Proof.
  intros Hfresh. unfold handleAPIBase, rw_Write, rw_WriteHeader, status_of.
  simpl. rewrite Hfresh. simpl. repeat split.
  eexists. split; [ reflexivity | ]. simpl. split.
  - rewrite Header_Get_Set_other by (vm_compute; discriminate).
    apply Header_Get_Set.
  - apply Header_Get_Set.
Qed.

(** C3, the claim as the spec has it, fails: the request for a path that
    matches no route is answered with status 200. *)
Lemma unmatched_not_answered_unsupported :
  ~ unmatched_answered_unsupported (Sample.env EmptyString) EmptyString.
Proof.
  intros Hclaim.
  destruct (Hclaim (Sample.request "/v2/acme/alice/referrers/latest" ∅) eq_refl)
    as [Hstatus _].
  apply Hstatus. reflexivity.
Qed.

(** C3, amended.  A request for which the router finds no route, and
    which it hands to its [NotFoundHandler], is answered by
    [handleAPIBase], as the base route is: status 200, content type
    [application/json], the two bytes [{}]; a request handed to a route
    other than base, manifest and blob is answered by the router's
    [http.NotFound].  Neither answer carries an error code.  A request
    that the router answers by itself, with a redirect, reaches neither;
    and the router is what answers every request that the mux hands on
    and that passes the authentication, where that is required. *)
Theorem unmatched_answered_by_handleAPIBase (X : Extern) (prefix : string)
    (w : ResponseWriter) (r : Request) :
  rwHead w = None ->
  let routes := registerHandler X (RouterWithPrefix prefix) in
  (route_match X prefix r = ToNotFound ->
   let w' := Router_ServeHTTP X routes w r in
   w' = handleAPIBase w r /\
   status_of w' = Some 200 /\
   rwBody w' = rwBody w +:+ "{}" /\
   exists head,
     rwHead w' = Some head /\
     Header_Get "Content-Type" (SentHeader head) = "application/json" /\
     Header_Get "Content-Length" (SentHeader head) = "2") /\
  (forall name vars,
     route_match X prefix r = ToRoute name vars ->
     name <> RouteNameBase -> name <> RouteNameManifest ->
     name <> RouteNameBlob ->
     Router_ServeHTTP X routes w r = http_NotFound w r /\
     status_of (Router_ServeHTTP X routes w r) = Some 404) /\
  (forall answer,
     route_match X prefix r = ByRouter answer ->
     Router_ServeHTTP X routes w r = answer w r) /\
  (forall reg,
     Prefix (reg_Config reg) = prefix ->
     ServeMux_answers X r = None ->
     RequireAuth (reg_Config reg) = false \/ BasicAuth X r <> None ->
     Serve_handler X reg w r = Router_ServeHTTP X routes w r).
Proof.
  intros Hfresh routes. split; [ | split; [ | split ] ].
  - intros Hmatch w'. subst w' routes. unfold Router_ServeHTTP.
    rewrite registerHandler_prefix, Hmatch, registerHandler_NotFoundHandler.
    split; [ reflexivity | ]. apply (handleAPIBase_answer w r Hfresh).
  - intros name vars Hmatch Hbase Hmanifest Hblob. subst routes.
    unfold Router_ServeHTTP.
    rewrite registerHandler_prefix, Hmatch.
    rewrite (registerHandler_handlers X prefix name Hbase Hmanifest Hblob).
    split; [ reflexivity | ].
    unfold http_NotFound, rw_Write, rw_WriteHeader, status_of. simpl.
    rewrite Hfresh. reflexivity.
  - intros answer Hmatch. subst routes. unfold Router_ServeHTTP.
    now rewrite registerHandler_prefix, Hmatch.
  - intros reg <- Hmux Hauth. subst routes.
    now apply Serve_handler_passes.
Qed.

(** In the sample deployment, a request for a path outside the API, with
    credentials: the router finds no route, and the handler of [Serve]
    answers 200. *)
Lemma unmatched_answered_by_handleAPIBase_witness :
  let X := Sample.env EmptyString in
  let reg := Sample.registry Sample.config in
  let r := Sample.request "/v2/acme/alice/referrers/latest" Sample.authorized in
  let routes := registerHandler X (RouterWithPrefix EmptyString) in
  route_match X EmptyString r = ToNotFound /\
  status_of (Router_ServeHTTP X routes newResponseWriter r) = Some 200 /\
  rwBody (Router_ServeHTTP X routes newResponseWriter r) = "{}" /\
  Serve_handler X reg newResponseWriter r
  = Router_ServeHTTP X routes newResponseWriter r.
Proof.
  intros X reg r routes.
  split; [ reflexivity | ].
  pose proof (unmatched_answered_by_handleAPIBase X EmptyString
                newResponseWriter r eq_refl) as H.
  cbv zeta in H. destruct H as (Hnot & _ & _ & Hserve).
  destruct (Hnot eq_refl) as (_ & Hstatus & Hbody & _).
  split; [ exact Hstatus | ]. split; [ exact Hbody | ].
  apply (Hserve reg eq_refl eq_refl).
  right. vm_compute. discriminate.
Defined.

(** ** [filepath.Join] of a directory and a file name *)

Lemma split_slash_nonempty (s : string) : split_slash s <> [].
Proof.
  destruct s as [| c r]; simpl; [ discriminate | ].
  destruct (Ascii.eqb c slash); [ discriminate | ].
  destruct (split_slash r); discriminate.
Qed.

Lemma split_slash_file_name (n : string) :
  has_slash n = false -> split_slash n = [n].
Proof.
  induction n as [| c r IH]; simpl; [ reflexivity | ].
  destruct (Ascii.eqb c slash); simpl; [ discriminate | ].
  intros Hr. now rewrite (IH Hr).
Qed.

Lemma split_slash_app (a b : string) :
  split_slash (a +:+ "/" +:+ b) = (split_slash a ++ split_slash b)%list.
Proof.
  induction a as [| c r IH]; simpl; [ reflexivity | ].
  destruct (Ascii.eqb c slash); simpl.
  - now rewrite IH.
  - rewrite IH. pose proof (split_slash_nonempty r) as Hne.
    destruct (split_slash r); [ contradiction | reflexivity ].
Qed.

Lemma split_slash_elems (s : string) :
  Forall (fun e => has_slash e = false) (split_slash s).
Proof.
  induction s as [| c r IH]; simpl.
  - repeat constructor.
  - destruct (Ascii.eqb c slash) eqn:Hc.
    + constructor; [ reflexivity | exact IH ].
    + destruct (split_slash r) as [| x xs].
      * repeat constructor. simpl. now rewrite Hc.
      * inversion IH; subst. constructor; [ | assumption ].
        simpl. now rewrite Hc.
Qed.

Lemma clean_step_file_name (rooted : bool) (out : list string) (n : string) :
  file_name n -> clean_step rooted out n = n :: out.
Proof.
  intros (_ & Hne & Hdot & Hdotdot). unfold clean_step.
  now rewrite Hne, Hdot, Hdotdot.
Qed.

Lemma clean_step_elems (rooted : bool) (out : list string) (el : string) :
  has_slash el = false ->
  Forall path_elem out -> Forall path_elem (clean_step rooted out el).
Proof.
  intros Hslash Hout. unfold clean_step.
  destruct (string_is_empty el) eqn:Hne; [ assumption | ].
  destruct (String.eqb el ".") eqn:Hdot; [ assumption | ].
  assert (path_elem el) as Hel by (repeat split; assumption).
  destruct (String.eqb el "..").
  - destruct out as [| top rest].
    + destruct rooted; [ assumption | now constructor ].
    + destruct (String.eqb top "..").
      * now constructor.
      * now inversion Hout.
  - now constructor.
Qed.

Lemma clean_loop_elems (rooted : bool) (els out : list string) :
  Forall (fun e => has_slash e = false) els ->
  Forall path_elem out ->
  Forall path_elem (fold_left (clean_step rooted) els out).
Proof.
  intros Hels. revert out.
  induction Hels as [| el els Hel _ IH]; intros out Hout; simpl.
  - assumption.
  - apply IH. now apply clean_step_elems.
Qed.

Lemma clean_elems_ok (path : string) : Forall path_elem (clean_elems path).
Proof.
  unfold clean_elems. apply clean_loop_elems; [ apply split_slash_elems | constructor ].
Qed.

Lemma append_cons (c : ascii) (a b : string) :
  String c a +:+ b = String c (a +:+ b).
Proof. reflexivity. Qed.

Lemma string_append_assoc (a b c : string) :
  (a +:+ b) +:+ c = a +:+ (b +:+ c).
Proof.
  induction a as [| x a IH]; [ reflexivity | ].
  now rewrite !append_cons, IH.
Qed.

Lemma join_slash_snoc (xs : list string) (n : string) :
  xs <> [] -> join_slash (xs ++ [n]) = join_slash xs +:+ "/" +:+ n.
Proof.
  induction xs as [| x xs IH]; [ contradiction | intros _ ].
  destruct xs as [| y ys]; [ reflexivity | ].
  change (join_slash ((x :: y :: ys) ++ [n]))
    with (x +:+ "/" +:+ join_slash ((y :: ys) ++ [n])).
  rewrite IH by discriminate.
  change (join_slash (x :: y :: ys)) with (x +:+ "/" +:+ join_slash (y :: ys)).
  now rewrite !string_append_assoc.
Qed.

(** A path of elements is longer than one byte, or is its one element. *)
Lemma join_slash_elems (xs : list string) :
  xs <> [] -> Forall path_elem xs ->
  string_is_empty (join_slash xs) = false /\
  String.eqb (join_slash xs) "." = false /\
  String.eqb (join_slash xs) "/" = false.
Proof.
  destruct xs as [| x xs]; [ contradiction | intros _ Hall ].
  inversion Hall as [| ? ? (Hslash & Hne & Hdot) _]; subst.
  destruct xs as [| y ys].
  - simpl. repeat split; try assumption.
    destruct x as [| c r]; [ discriminate | ]. simpl in Hslash |- *.
    destruct (Ascii.eqb c slash) eqn:Hc; [ discriminate | ].
    unfold slash in Hc. now rewrite Hc.
  - change (join_slash (x :: y :: ys)) with (x +:+ "/" +:+ join_slash (y :: ys)).
    destruct x as [| c r]; [ discriminate | ]. simpl.
    repeat split.
    + destruct (Ascii.eqb c "."); [ | reflexivity ].
      destruct r; reflexivity.
    + destruct (Ascii.eqb c "/"); [ | reflexivity ].
      destruct r; reflexivity.
Qed.

Lemma is_rooted_file_name (n : string) : file_name n -> is_rooted n = false.
Proof.
  intros (Hslash & _). destruct n as [| c r]; [ reflexivity | ].
  simpl in *. now destruct (Ascii.eqb c slash).
Qed.

Lemma Clean_file_name (n : string) : file_name n -> Clean n = n.
Proof.
  intros Hn. pose proof Hn as (Hslash & Hne & _).
  unfold Clean, clean_elems. rewrite Hne, (is_rooted_file_name n Hn).
  rewrite (split_slash_file_name n Hslash). simpl.
  now rewrite (clean_step_file_name false [] n Hn).
Qed.

Lemma clean_elems_dir_file (c : ascii) (r n : string) :
  file_name n ->
  clean_elems (String c r +:+ "/" +:+ n) = n :: clean_elems (String c r).
Proof.
  intros Hn. pose proof Hn as (Hslash & _). unfold clean_elems.
  rewrite split_slash_app, fold_left_app.
  rewrite (split_slash_file_name n Hslash). simpl fold_left at 1.
  change (is_rooted (String c r +:+ "/" +:+ n)) with (is_rooted (String c r)).
  now apply clean_step_file_name.
Qed.

(** Joining a directory and a file name gives the path of that entry of
    the cleaned directory. *)
Lemma Join_dir_file (loc n : string) :
  file_name n -> Join [loc; n] = entry_path (Clean loc) n.
Proof.
  intros Hn. pose proof Hn as (_ & Hne & _).
  destruct loc as [| c r].
  - simpl. rewrite Hne. change (join_slash [n]) with n.
    now rewrite (Clean_file_name n Hn).
  - change (Join [String c r; n]) with (Clean (String c r +:+ "/" +:+ n)).
    unfold Clean at 1.
    change (string_is_empty (String c r +:+ "/" +:+ n)) with false.
    change (is_rooted (String c r +:+ "/" +:+ n)) with (is_rooted (String c r)).
    rewrite (clean_elems_dir_file c r n Hn).
    unfold Clean. change (string_is_empty (String c r)) with false.
    pose proof (clean_elems_ok (String c r)) as Hout.
    destruct (clean_elems (String c r)) as [| top rest] eqn:Helems.
    + destruct (is_rooted (String c r)); reflexivity.
    + assert (rev (top :: rest) <> []) as Hrev.
      { simpl. intros Heq. now apply app_eq_nil in Heq as [_ Heq]. }
      apply Forall_rev in Hout.
      destruct (join_slash_elems _ Hrev Hout) as (Hj & Hdot & Hroot).
      unfold render.
      change (rev (n :: top :: rest)) with (rev (top :: rest) ++ [n])%list.
      rewrite (join_slash_snoc _ n Hrev).
      destruct (is_rooted (String c r)).
      * unfold entry_path. rewrite !append_cons.
        destruct (join_slash (rev (top :: rest))) as [| j js] eqn:Hjoin;
          [ discriminate | ].
        reflexivity.
      * unfold entry_path. now rewrite Hdot, Hroot.
Qed.

Lemma has_slash_app (a b : string) :
  has_slash (a +:+ b) = (has_slash a || has_slash b)%bool.
Proof.
  induction a as [| c a IH]; [ reflexivity | ].
  rewrite append_cons. simpl. rewrite IH. now destruct (Ascii.eqb c slash).
Qed.

Lemma has_slash_digits (d : Decimal.uint) :
  has_slash (NilEmpty.string_of_uint d) = false.
Proof. induction d; simpl; auto. Qed.

Lemma has_slash_itoa (n : Z) : has_slash (itoa n) = false.
Proof.
  unfold itoa, NilZero.string_of_int, NilZero.string_of_uint.
  destruct (Z.to_int n) as [d | d]; destruct d; simpl;
    auto using has_slash_digits.
Qed.

Lemma handoverSocketName_file_name (now : Z) :
  file_name (handoverSocketName now).
Proof.
  unfold handoverSocketName. repeat split.
  rewrite !has_slash_app, has_slash_itoa. reflexivity.
Qed.

Lemma entry_path_nonempty (dir n : string) :
  string_is_empty n = false -> string_is_empty (entry_path dir n) = false.
Proof.
  intros Hn. unfold entry_path.
  destruct (String.eqb dir "."); [ assumption | ].
  destruct (String.eqb dir "/"); [ reflexivity | ].
  destruct dir; [ | reflexivity ].
  reflexivity.
Qed.

(** ** [OfferHandover] *)

Lemma OfferHandover_tcp (X : Extern) (ctx : Context) (loc : string)
    (l : Listener) (s : bool) :
  isTCPListener l = true ->
  let g := {| offer_ctx := ctx;
              offer_socketFN := Join [loc; handoverSocketName (time_Now_Unix X)];
              offer_listener := l;
              offer_hasShutdowner := s |} in
  OfferHandover X ctx loc l s
  = ([EvGoOffer g; EvLog Info "offering listener handover"], (Some g, None)).
Proof.
  intros Htcp g. unfold OfferHandover.
  rewrite (Join_dir_file loc _ (handoverSocketName_file_name _)).
  rewrite entry_path_nonempty by reflexivity.
  rewrite Htcp. simpl.
  subst g. now rewrite (Join_dir_file loc _ (handoverSocketName_file_name _)).
Qed.

(** C9.  A donor, that is [OfferHandover] called with a TCP listener,
    starts the goroutine that publishes the socket, and the path it gives
    it is the entry [rf-handover-<n>.sock] of the cleaned sockets
    directory, [<n>] being the decimal Unix time read at the call. *)
Theorem OfferHandover_socket_name (X : Extern) (ctx : Context) (loc : string)
    (l : Listener) (s : bool) :
  isTCPListener l = true ->
  let name := "rf-handover-" +:+ itoa (time_Now_Unix X) +:+ ".sock" in
  exists g,
    value_of (OfferHandover X ctx loc l s) = (Some g, None) /\
    In (EvGoOffer g) (trace_of (OfferHandover X ctx loc l s)) /\
    offer_listener g = l /\
    offer_socketFN g = Join [loc; name] /\
    offer_socketFN g = entry_path (Clean loc) name.
Proof.
  intros Htcp name. rewrite (OfferHandover_tcp X ctx loc l s Htcp).
  eexists. split; [ reflexivity | ]. split; [ now left | ].
  split; [ reflexivity | ]. split; [ reflexivity | ].
  apply (Join_dir_file loc _ (handoverSocketName_file_name _)).
Qed.

(** In the sample deployment, the sockets directory written with a
    trailing separator. *)
Lemma OfferHandover_socket_name_witness :
  let X := Sample.env EmptyString in
  let l := {| isTCPListener := true; listenerOrigin := ":8080" |} in
  exists g,
    value_of (OfferHandover X Background "/var/run/rf/" l true) = (Some g, None) /\
    In (EvGoOffer g) (trace_of (OfferHandover X Background "/var/run/rf/" l true)) /\
    offer_listener g = l /\
    offer_socketFN g = "/var/run/rf/rf-handover-1620000123.sock" /\
    offer_socketFN g = entry_path "/var/run/rf" "rf-handover-1620000123.sock".
Proof.
  exact (OfferHandover_socket_name (Sample.env EmptyString) Background
           "/var/run/rf/"
           {| isTCPListener := true; listenerOrigin := ":8080" |} true eq_refl).
Defined.

(** ** Traces *)

Lemma trace_bind {A B} (m : M A) (k : A -> M B) :
  trace_of (m ≫= k) = (trace_of m ++ trace_of (k (value_of m)))%list.
Proof.
  destruct m as [t a]. unfold mbind, M_bind, trace_of, value_of. simpl.
  now destruct (k a).
Qed.

Lemma value_bind {A B} (m : M A) (k : A -> M B) :
  value_of (m ≫= k) = value_of (k (value_of m)).
Proof.
  destruct m as [t a]. unfold mbind, M_bind, trace_of, value_of. simpl.
  now destruct (k a).
Qed.

Lemma trace_call {A} (ev : Event) (err : option error) (obj : A) :
  trace_of (call ev err obj) = [ev].
Proof. reflexivity. Qed.

Lemma value_call {A} (ev : Event) (err : option error) (obj : A) :
  value_of (call ev err obj)
  = match err with Some e => inl e | None => inr obj end.
Proof. reflexivity. Qed.

Lemma trace_wrap_err {A} (f : error -> error) (m : M (error + A)) :
  trace_of (wrap_err f m) = trace_of m.
Proof. unfold wrap_err. rewrite trace_bind. apply app_nil_r. Qed.

Lemma value_wrap_err {A} (f : error -> error) (m : M (error + A)) :
  value_of (wrap_err f m)
  = match value_of m with inl e => inl (f e) | inr a => inr a end.
Proof. unfold wrap_err. now rewrite value_bind. Qed.

Lemma trace_try {A B} (m : M (error + A)) (k : A -> M (error + B)) :
  trace_of (try m k)
  = (trace_of m ++ match value_of m with
                   | inl _ => []
                   | inr a => trace_of (k a)
                   end)%list.
Proof.
  unfold try. rewrite trace_bind. now destruct (value_of m).
Qed.

Lemma value_try {A B} (m : M (error + A)) (k : A -> M (error + B)) :
  value_of (try m k)
  = match value_of m with
    | inl e => inl e
    | inr a => value_of (k a)
    end.
Proof.
  unfold try. rewrite value_bind. now destruct (value_of m).
Qed.

(** ** The listener of [Serve] *)

Lemma Serve_listener_handover (X : Extern) (cfg : Config) (addr : string) :
  Enabled (Handover cfg) = true ->
  nonempty (Sockets (Handover cfg)) = true ->
  let rh := ReceiveHandover X (WithTimeout Background (10 * Second))
              (Sockets (Handover cfg)) in
  (exists rest, trace_of (Serve_listener X cfg addr) = (trace_of rh ++ rest)%list) /\
  match fst (value_of rh) with
  | Some l => value_of (Serve_listener X cfg addr) = inr l
  | None =>
      In (EvListen "tcp" addr) (trace_of (Serve_listener X cfg addr)) /\
      value_of (Serve_listener X cfg addr)
      = match net_Listen_err X "tcp" addr with
        | Some e => inl e
        | None => inr (ownListener addr)
        end
  end.
Proof.
  intros Hen Hsock rh. unfold Serve_listener. rewrite Hen, Hsock.
  cbn [andb]. fold rh.
  rewrite !trace_bind, !value_bind.
  destruct rh as [t [[l |] [err |]]]; cbn [trace_of value_of fst snd];
    rewrite ?trace_bind, ?value_bind; cbn.
  all: split; [ rewrite <- ?app_assoc; eexists; reflexivity | ].
  all: try reflexivity.
  all: split; [ rewrite !in_app_iff; cbn; auto 10 | ].
  all: now destruct (net_Listen_err X "tcp" addr).
Qed.

Lemma nonempty_true (s : string) : s <> EmptyString -> nonempty s = true.
Proof. destruct s; [ contradiction | reflexivity ]. Qed.

Lemma ReceiveHandover_ctx (X : Extern) (ctx c : Context) (loc fn : string) :
  In (EvHandoverReceive c fn) (trace_of (ReceiveHandover X ctx loc)) -> c = ctx.
Proof.
  unfold ReceiveHandover.
  destruct (string_is_empty loc); [ intros [] | ].
  destruct (os_ReadDir X loc) as [err | fs]; cbn.
  - intros [H | []]. discriminate H.
  - destruct (string_is_empty (latestSocket fs)); cbn.
    + intros [H | []]. discriminate H.
    + intros [H | [H | [H | []]]]; try discriminate H.
      now injection H as ->.
Qed.

Lemma Serve_start_trace (X : Extern) (reg : Registry) :
  exists before after,
    trace_of (Serve_start X reg)
    = (before ++ trace_of (Serve_listener X (reg_Config reg)
                             (":" +:+ itoa (Port (reg_Config reg)))) ++ after)%list /\
    (forall c fn, ~ In (EvHandoverReceive c fn) before) /\
    (forall c fn, ~ In (EvHandoverReceive c fn) after).
Proof.
  unfold Serve_start. rewrite !trace_bind.
  eexists. eexists. split; [ reflexivity | ]. split.
  - intros c fn. destruct (nonempty (Getenv X "REGFAC_NO_TLS_DEBUG")); cbn.
    + intros [H | []]. discriminate H.
    + intros [].
  - intros c fn.
    destruct (value_of (Serve_listener X (reg_Config reg) _)) as [err | l].
    + intros [].
    + rewrite trace_bind.
      destruct (Enabled (Handover (reg_Config reg))).
      * rewrite trace_bind. unfold OfferHandover.
        destruct (string_is_empty _); cbn.
        { destruct (TLS (reg_Config reg)); cbn; intuition discriminate. }
        destruct (isTCPListener l); cbn.
        { destruct (TLS (reg_Config reg)); cbn; intuition discriminate. }
        intuition discriminate.
      * cbn. destruct (TLS (reg_Config reg)); cbn; intuition discriminate.
Qed.

Lemma Serve_start_value (X : Extern) (reg : Registry) :
  let cfg := reg_Config reg in
  let addr := ":" +:+ itoa (Port cfg) in
  match value_of (Serve_listener X cfg addr) with
  | inl err => value_of (Serve_start X reg) = Returned (Some err)
  | inr l =>
      isTCPListener l = true ->
      serving_listener (value_of (Serve_start X reg)) = Some l
  end.
Proof.
  intros cfg addr. unfold Serve_start. fold cfg. fold addr.
  rewrite !value_bind.
  destruct (value_of (Serve_listener X cfg addr)) as [err | l];
    [ reflexivity | ].
  intros Htcp. rewrite value_bind.
  destruct (Enabled (Handover cfg)).
  - rewrite value_bind, (OfferHandover_tcp X _ _ l true Htcp). cbn.
    destruct (TLS cfg); reflexivity.
  - cbn. destruct (TLS cfg); reflexivity.
Qed.

(** As [ReceiveHandover] skips every entry of the sockets directory,
    [Serve] always ends up binding its own listener. *)
Lemma Serve_binds_own_listener (X : Extern) (reg : Registry) :
  let cfg := reg_Config reg in
  let addr := ":" +:+ itoa (Port cfg) in
  (forall fs, os_ReadDir X (Sockets (Handover cfg)) = inr fs -> file_types fs) ->
  In (EvListen "tcp" addr) (trace_of (Serve_start X reg)).
Proof.
  intros cfg addr Hdir.
  destruct (Serve_start_trace X reg) as (before & after & Htrace & _).
  fold cfg in Htrace. fold addr in Htrace.
  rewrite Htrace, !in_app_iff. right; left.
  destruct (Enabled (Handover cfg) && nonempty (Sockets (Handover cfg)))%bool
    eqn:Hcond.
  - apply andb_prop in Hcond as [Hen Hsock].
    pose proof (Serve_listener_handover X cfg addr Hen Hsock) as [_ Hval].
    cbv zeta in Hval.
    destruct (ReceiveHandover_no_attempt X (WithTimeout Background (10 * Second))
                (Sockets (Handover cfg)) Hdir) as [Hnone _].
    rewrite Hnone in Hval. apply Hval.
  - unfold Serve_listener. rewrite Hcond. cbn. now left.
Qed.

(** C5.  With the handover enabled and a sockets directory configured,
    [Serve] calls [ReceiveHandover] under a deadline of ten seconds, and
    that is the deadline of any reception it attempts.  When this yields
    no listener, with or without an error, [Serve] binds its own TCP
    listener on [:<port>] and goes on with it; it returns an error only
    when that bind fails, and the error is the bind's. *)
Theorem Serve_falls_back_to_own_listener (X : Extern) (reg : Registry) :
  let cfg := reg_Config reg in
  let addr := ":" +:+ itoa (Port cfg) in
  let ctx := WithTimeout Background (10 * Second) in
  let rh := ReceiveHandover X ctx (Sockets (Handover cfg)) in
  Enabled (Handover cfg) = true ->
  Sockets (Handover cfg) <> EmptyString ->
  ctx_timeout ctx = Some 10000000000 /\
  (exists before after,
     trace_of (Serve_start X reg) = (before ++ trace_of rh ++ after)%list) /\
  (forall c fn,
     In (EvHandoverReceive c fn) (trace_of (Serve_start X reg)) ->
     ctx_timeout c = Some 10000000000) /\
  (fst (value_of rh) = None ->
   In (EvListen "tcp" addr) (trace_of (Serve_start X reg)) /\
   match net_Listen_err X "tcp" addr with
   | Some err => value_of (Serve_start X reg) = Returned (Some err)
   | None =>
       serving_listener (value_of (Serve_start X reg)) = Some (ownListener addr)
   end).
Proof.
  intros cfg addr ctx rh Hen Hsock. apply nonempty_true in Hsock.
  destruct (Serve_listener_handover X cfg addr Hen Hsock) as [[rest Hrest] Hval].
  destruct (Serve_start_trace X reg) as (before & after & Htrace & Hbefore & Hafter).
  fold cfg in Htrace. fold addr in Htrace. fold ctx in Hrest, Hval.
  fold rh in Hrest, Hval.
  split; [ reflexivity | ]. split; [ | split ].
  - exists before, (rest ++ after)%list.
    now rewrite Htrace, Hrest, <- app_assoc.
  - intros c fn. rewrite Htrace, !in_app_iff. intros [Hin | [Hin | Hin]].
    + now apply Hbefore in Hin.
    + assert (c = ctx) as ->; [ | reflexivity ].
      unfold Serve_listener in Hin. rewrite Hen, Hsock in Hin.
      cbn [andb] in Hin. rewrite !trace_bind, !in_app_iff in Hin.
      destruct Hin as [[Hin | Hin] | Hin].
      * now apply ReceiveHandover_ctx in Hin.
      * destruct (value_of (ReceiveHandover X _ _)) as [l [err |]];
          cbn in Hin; intuition discriminate.
      * rewrite value_bind in Hin.
        destruct (value_of (ReceiveHandover X _ _)) as [[l |] [err |]];
          cbn in Hin; intuition discriminate.
    + now apply Hafter in Hin.
  - intros Hnone. rewrite Hnone in Hval. destruct Hval as [Hin Hval].
    split.
    + rewrite Htrace, !in_app_iff. now right; left.
    + pose proof (Serve_start_value X reg) as Hstart.
      cbv zeta in Hstart. fold cfg in Hstart. fold addr in Hstart.
      rewrite Hval in Hstart.
      destruct (net_Listen_err X "tcp" addr); [ exact Hstart | ].
      now apply Hstart.
Qed.

(** In the sample deployment, [Serve] binds [:8080]. *)
Lemma Serve_falls_back_to_own_listener_witness :
  let X := Sample.env EmptyString in
  let reg := Sample.registry Sample.config in
  In (EvListen "tcp" ":8080") (trace_of (Serve_start X reg)) /\
  serving_listener (value_of (Serve_start X reg)) = Some (ownListener ":8080").
Proof.
  exact (proj2 (proj2 (proj2
           (Serve_falls_back_to_own_listener (Sample.env EmptyString)
              (Sample.registry Sample.config) eq_refl
              ltac:(discriminate)))) eq_refl).
Defined.

(** ** File paths and [TELEPRESENCE_ROOT] *)

Lemma NewRegistry_store_under_root (X : Extern) (cfg : Config)
    (newResolver : ResolverProvider) :
  exists rest,
    trace_of (NewRegistry X cfg newResolver)
    = EvNewStore (underRoot X (Store cfg)) :: rest.
Proof.
  unfold NewRegistry. rewrite trace_try, trace_call.
  eexists. unfold underRoot. reflexivity.
Qed.

Lemma remoteDialOptions_paths (X : Extern) (rsp : RemoteSpecProviderConfig)
    (ev : Event) :
  In ev (trace_of (remoteDialOptions X rsp)) ->
  exists tls,
    RemoteTLS rsp = Some tls /\
    (ev = EvReadFile (underRoot X (Authority tls)) \/
     ev = EvLoadX509KeyPair (underRoot X (Certificate tls))
            (underRoot X (PrivateKey tls)) \/
     exists lvl msg, ev = EvLog lvl msg).
Proof.
  unfold remoteDialOptions, underRoot.
  destruct (RemoteTLS rsp) as [tls |]; [ | intros [] ].
  intros Hin. exists tls. split; [ reflexivity | ].
  rewrite trace_bind in Hin. cbn [trace_of emit fst value_of snd] in Hin.
  apply in_app_or in Hin as [[<- | []] | Hin]; [ now left | ].
  destruct (os_ReadFile X _) as [err | rootCA]; [ destruct Hin | ].
  destruct (AppendCertsFromPEM X rootCA); cbn [negb] in Hin; [ | destruct Hin ].
  rewrite trace_bind in Hin. cbn [trace_of emit fst value_of snd] in Hin.
  apply in_app_or in Hin as [[<- | []] | Hin]; [ right; now left | ].
  right; right.
  destruct (LoadX509KeyPair_err X _ _); cbn in Hin;
    destruct Hin as [<- | []]; eauto.
Qed.

Lemma Serve_start_tls_paths (X : Extern) (reg : Registry) (srv : Server)
    (l : Listener) (certFile keyFile : string) (hoc : option OfferGoroutine) :
  value_of (Serve_start X reg) = InServeTLS srv l certFile keyFile hoc ->
  exists tls,
    TLS (reg_Config reg) = Some tls /\
    certFile = underRoot X (tlsCertificate tls) /\
    keyFile = underRoot X (tlsPrivateKey tls).
Proof.
  unfold Serve_start. rewrite !value_bind.
  destruct (value_of (Serve_listener X _ _)) as [err | l']; [ discriminate | ].
  rewrite value_bind.
  destruct (value_of (if Enabled (Handover (reg_Config reg)) then _ else _))
    as [err | hoc']; [ discriminate | ].
  destruct (TLS (reg_Config reg)) as [tls |]; [ | discriminate ].
  rewrite value_bind. cbn. intros [= _ _ <- <- _].
  exists tls. now split.
Qed.

(** The static layer loop hands every [file] reference to
    [NewFileLayerSource] as it is configured, whatever the environment. *)
Lemma staticLayers_file_refs (X : Extern) (newResolver : ResolverProvider)
    (sls : list StaticLayerConfig) (acc : list LayerSource) (file : string) :
  In (EvNewFileLayerSource file)
     (trace_of (staticLayers X newResolver sls acc)) ->
  exists sl, In sl sls /\ Type' sl = "file" /\ file = Ref sl.
Proof.
  revert acc. induction sls as [| sl rest IH]; intros acc; [ intros [] | ].
  cbn [staticLayers].
  destruct (String.eqb (Type' sl) "file") eqn:Hfile.
  - rewrite trace_try, trace_wrap_err, value_wrap_err, trace_call, value_call.
    intros [[= <-] | Hin].
    + exists sl. apply String.eqb_eq in Hfile.
      repeat split; [ now left | assumption ].
    + destruct (NewFileLayerSource_err X (Ref sl)); [ destruct Hin | ].
      apply IH in Hin as (sl' & Hsl' & Hrest).
      exists sl'. split; [ now right | assumption ].
  - destruct (String.eqb (Type' sl) "image"); [ | intros [] ].
    rewrite trace_try, trace_wrap_err, value_wrap_err, trace_call, value_call.
    intros [[=] | Hin].
    destruct (NewStaticSourceFromImage_err X (Ref sl)); [ destruct Hin | ].
    apply IH in Hin as (sl' & Hsl' & Hrest).
    exists sl'. split; [ now right | assumption ].
Qed.

Lemma NewRegistry_file_refs (X : Extern) (cfg : Config)
    (newResolver : ResolverProvider) (file : string) :
  In (EvNewFileLayerSource file) (trace_of (NewRegistry X cfg newResolver)) ->
  exists sl, In sl (StaticLayer cfg) /\ Type' sl = "file" /\ file = Ref sl.
Proof.
  unfold NewRegistry. rewrite trace_try, trace_call, value_call.
  intros [[=] | Hin].
  destruct (local_NewStore_err X _); [ destruct Hin | ].
  rewrite trace_try in Hin. cbn [trace_of value_of mret M_ret fst snd app] in Hin.
  destruct (newMetrics_err X); [ destruct Hin | ].
  rewrite trace_try in Hin. cbn [trace_of value_of mret M_ret fst snd app] in Hin.
  destruct (NewSpecMappedImageSource_err X); [ destruct Hin | ].
  rewrite trace_bind in Hin. cbn [trace_of emit fst value_of snd] in Hin.
  apply in_app_or in Hin as [[[=] | []] | Hin].
  rewrite trace_try in Hin. apply in_app_or in Hin as [Hin | Hin].
  - now apply staticLayers_file_refs in Hin.
  - exfalso.
    destruct (value_of (staticLayers X newResolver (StaticLayer cfg) _))
      as [err | layerSources]; [ destruct Hin | ].
    rewrite trace_try in Hin. cbn [trace_of value_of mret M_ret fst snd app] in Hin.
    destruct (NewContentLayerSource_err X); [ destruct Hin | ].
    rewrite trace_try in Hin. apply in_app_or in Hin as [Hin | Hin].
    + destruct (RemoteSpecProvider cfg) as [rsp |]; [ | destruct Hin ].
      rewrite trace_try in Hin. apply in_app_or in Hin as [Hin | Hin].
      * apply remoteDialOptions_paths in Hin
          as (tls & _ & [Hev | [Hev | (lvl & msg & Hev)]]); discriminate Hev.
      * destruct (value_of (remoteDialOptions X rsp)); [ destruct Hin | ].
        destruct (NewCachingSpecProvider_err X 128); destruct Hin.
    + destruct (value_of (match RemoteSpecProvider cfg with
                          | Some rsp => _ | None => _ end));
        destruct Hin.
Qed.

(** C4 (the code misses one of the paths it prefixes elsewhere).  With
    [TELEPRESENCE_ROOT=/tp], [NewRegistry] opens the blob store and reads
    the certificate authority, the certificate and the key of the remote
    spec provider under [/tp], and [Serve] would load its own certificate
    and key there; the static layer file [/layers/ide.tar.gz] is handed to
    [NewFileLayerSource] as configured, without the prefix. *)
Theorem NewRegistry_static_file_without_root :
  let X := Sample.env "/tp" in
  let run := NewRegistry X Sample.config "docker" in
  Getenv X "TELEPRESENCE_ROOT" = "/tp" /\
  trace_of run
  = [ EvNewStore "/tp/mnt/cache/registry";
      EvLog Info "preparing static layer";
      EvNewFileLayerSource "/layers/ide.tar.gz";
      EvNewStaticSourceFromImage "docker.io/gitpod/supervisor:latest";
      EvReadFile "/tp/certs/ca.crt";
      EvLoadX509KeyPair "/tp/certs/tls.crt" "/tp/certs/tls.key";
      EvLog Debug "using TLS config to connect ws-manager" ] /\
  underRoot X "/layers/ide.tar.gz" = "/tp/layers/ide.tar.gz" /\
  ~ In (EvNewFileLayerSource "/tp/layers/ide.tar.gz") (trace_of run) /\
  (exists reg,
     value_of run = inr reg /\
     reg_Store reg = LocalStore "/tp/mnt/cache/registry" /\
     reg_LayerSource reg
     = [ SpecMappedImageSource "docker" ideRefSource;
         FileLayerSource "/layers/ide.tar.gz";
         StaticSourceFromImage "docker" "docker.io/gitpod/supervisor:latest";
         ContentLayerSource ]) /\
  (exists srv l hoc,
     value_of (Serve_start X (Sample.registry Sample.configTLS))
     = InServeTLS srv l "/tp/certs/srv.crt" "/tp/certs/srv.key" hoc).
Proof.
  cbv zeta. split; [ reflexivity | ]. split; [ reflexivity | ].
  split; [ reflexivity | ]. split.
  - intros Hin. apply NewRegistry_file_refs in Hin as (sl & Hsl & _ & Href).
    destruct Hsl as [<- | [<- | []]]; discriminate Href.
  - split.
    + eexists. split; [ reflexivity | ]. split; reflexivity.
    + do 3 eexists. reflexivity.
Qed.

(** ** The goroutines *)

Lemma Serve_start_threads (X : Extern) (reg : Registry) (t0 : Threads) :
  threads_of (value_of (Serve_start X reg)) = Some t0 ->
  mainPc t0 = (if servesTLS (reg_Config reg) then AtServeTLS else AtSelect) /\
  (offerPc t0 = NoOffer \/ offerPc t0 = Offering) /\
  serverPc t0 = ServerRunning.
Proof.
  unfold Serve_start, servesTLS. rewrite !value_bind.
  destruct (value_of (Serve_listener X _ _)) as [err | l]; [ discriminate | ].
  rewrite value_bind.
  destruct (value_of (if Enabled (Handover (reg_Config reg)) then _ else _))
    as [err | hoc]; [ discriminate | ].
  destruct (TLS (reg_Config reg)); rewrite ?value_bind; cbn;
    intros [= <-]; destruct hoc; cbn; auto.
Qed.

Lemma consistent_start (X : Extern) (reg : Registry) (t0 : Threads) :
  threads_of (value_of (Serve_start X reg)) = Some t0 ->
  consistent (servesTLS (reg_Config reg)) t0.
Proof.
  intros Hstart.
  destruct (Serve_start_threads X reg t0 Hstart) as (Hmain & Hoffer & _).
  unfold consistent. rewrite Hmain.
  destruct (servesTLS (reg_Config reg));
    (split; [ reflexivity | destruct Hoffer as [-> | ->]; reflexivity ]).
Qed.

Lemma consistent_step (tls : bool) (t t' : Threads) (a : Action) :
  consistent tls t -> step t a = Some t' -> consistent tls t'.
Proof.
  destruct t as [m o s h]. unfold consistent, step. cbn.
  destruct a as [ | | | err | err | | | err];
    destruct m as [ | | | [e |]]; destruct o as [ | | | | []];
    try destruct s; try destruct h; try destruct err; cbn;
    intros Hinv [= <-]; cbn; intuition congruence.
Qed.

Lemma consistent_exec (tls : bool) (acts : list Action) (t t' : Threads) :
  consistent tls t -> exec t acts = Some t' -> consistent tls t'.
Proof.
  revert t. induction acts as [| a acts IH]; intros t Hinv; cbn.
  - now intros [= <-].
  - destruct (step t a) as [t1 |] eqn:Hstep; [ | discriminate ].
    apply IH. now apply (consistent_step tls t t1 a).
Qed.

Lemma consistent_reachable (X : Extern) (reg : Registry) (t : Threads) :
  reachable X reg t -> consistent (servesTLS (reg_Config reg)) t.
Proof.
  intros (t0 & acts & Hstart & Hexec).
  apply (consistent_exec _ acts t0 t); [ | assumption ].
  now apply (consistent_start X).
Qed.

Lemma exec_app (t : Threads) (acts1 acts2 : list Action) :
  exec t (acts1 ++ acts2)
  = match exec t acts1 with
    | Some t1 => exec t1 acts2
    | None => None
    end.
Proof.
  revert t. induction acts1 as [| a acts1 IH]; intros t; cbn; [ reflexivity | ].
  destruct (step t a); [ apply IH | reflexivity ].
Qed.

Lemma reachable_exec (X : Extern) (reg : Registry) (t t' : Threads)
    (acts : list Action) :
  reachable X reg t -> exec t acts = Some t' -> reachable X reg t'.
Proof.
  intros (t0 & acts0 & Hstart & Hexec) Hmore.
  exists t0, (acts0 ++ acts)%list. split; [ assumption | ].
  now rewrite exec_app, Hexec.
Qed.

(** Once closed, the handover channel stays closed, for the same reason. *)
Lemma closed_step (t t' : Threads) (a : Action) (why : OfferExit) :
  offerPc t = ChannelClosed why -> step t a = Some t' ->
  offerPc t' = ChannelClosed why.
Proof.
  destruct t as [m o s h]. cbn. intros ->. unfold step. cbn.
  destruct a as [ | | | err | err | | | err]; destruct m as [ | | | r];
    try destruct s; cbn; intros [= <-]; reflexivity.
Qed.

Lemma closed_exec (acts : list Action) (t t' : Threads) (why : OfferExit) :
  offerPc t = ChannelClosed why -> exec t acts = Some t' ->
  offerPc t' = ChannelClosed why.
Proof.
  revert t. induction acts as [| a acts IH]; intros t Hclosed; cbn.
  - now intros [= <-].
  - destruct (step t a) as [t1 |] eqn:Hstep; [ | discriminate ].
    apply IH. now apply (closed_step t t1 a).
Qed.

(** Serving HTTPS, nobody receives from the handover channel: the goroutine
    of [OfferHandover] never gets past its send, and never calls
    [Shutdown]. *)
Lemma https_never_shuts_down (X : Extern) (reg : Registry) (t : Threads) :
  reachable X reg t ->
  servesTLS (reg_Config reg) = true ->
  beforeSend (offerPc t) = true /\ shutdownCalled t = false.
Proof.
  intros Hreach Htls.
  pose proof (consistent_reachable X reg t Hreach) as Hinv.
  rewrite Htls in Hinv. unfold consistent in Hinv.
  assert (beforeSend (offerPc t) = true) as Hbefore.
  { destruct (mainPc t) as [ | | | [err |]].
    - apply Hinv.
    - destruct Hinv as [Hinv _]. discriminate Hinv.
    - destruct Hinv as [Hinv _]. discriminate Hinv.
    - apply Hinv.
    - discriminate Hinv. }
  split; [ exact Hbefore | ].
  unfold shutdownCalled. destruct (offerPc t) as [ | | | | []];
    try reflexivity; discriminate Hbefore.
Qed.

(** ** The error that [Serve] returns *)

(** Having returned, [Serve] stays returned. *)
Lemma returned_step (t t' : Threads) (a : Action) (r : option error) :
  mainPc t = ServeReturned r -> step t a = Some t' ->
  mainPc t' = ServeReturned r.
Proof.
  destruct t as [m o s h]. cbn. intros ->. unfold step. cbn.
  destruct a as [ | | | err | err | | | err]; destruct o as [ | | | | why];
    try destruct s; cbn; intros Hstep; try discriminate Hstep;
    injection Hstep as <-; reflexivity.
Qed.

Lemma returned_exec (acts : list Action) (t t' : Threads) (r : option error) :
  mainPc t = ServeReturned r -> exec t acts = Some t' ->
  mainPc t' = ServeReturned r.
Proof.
  revert t. induction acts as [| a acts IH]; intros t Hmain; cbn.
  - now intros [= <-].
  - destruct (step t a) as [t1 |] eqn:Hstep; [ | discriminate ].
    apply IH. now apply (returned_step t t1 a).
Qed.

(** With the server's error in [srvErrChan], [Serve] returns that error
    or none. *)
Lemma buffered_step (t t' : Threads) (a : Action) (err : error) :
  serverPc t = ErrBuffered err ->
  (forall e, mainPc t <> ServeReturned (Some e)) ->
  mainPc t <> AtServeTLS ->
  step t a = Some t' ->
  mainPc t' = ServeReturned (Some err) \/
  serverPc t' = ErrBuffered err /\
  (forall e, mainPc t' <> ServeReturned (Some e)) /\
  mainPc t' <> AtServeTLS.
Proof.
  destruct t as [m o s h]. cbn. intros -> Hret Htls. unfold step. cbn.
  destruct a as [ | | | e' | e' | | | e'];
    destruct m as [ | | | [e |]]; destruct o as [ | | | | why]; cbn;
    intros Hstep; try discriminate Hstep; injection Hstep as <-; cbn;
    try (now left);
    try (right; repeat split; try discriminate; congruence).
  all: try (exfalso; now apply (Hret e)).
Qed.

Lemma buffered_exec (acts : list Action) (t t' : Threads) (err : error) :
  serverPc t = ErrBuffered err ->
  (forall e, mainPc t <> ServeReturned (Some e)) ->
  mainPc t <> AtServeTLS ->
  exec t acts = Some t' ->
  forall e, mainPc t' = ServeReturned (Some e) -> e = err.
Proof.
  revert t. induction acts as [| a acts IH]; intros t Hs Hret Htls; cbn.
  - intros [= <-] e He. now apply Hret in He.
  - destruct (step t a) as [t1 |] eqn:Hstep; [ | discriminate ].
    intros Hexec e He.
    destruct (buffered_step t t1 a err Hs Hret Htls Hstep)
      as [Hdone | (Hs1 & Hret1 & Htls1)].
    + rewrite (returned_exec acts t1 t' _ Hdone Hexec) in He.
      now injection He as <-.
    + now apply (IH t1 Hs1 Hret1 Htls1 Hexec).
Qed.

(** While the server runs, a step either is the server's return, or
    leaves it running and [Serve] without an error to return. *)
Lemma running_step (t t' : Threads) (a : Action) :
  serverPc t = ServerRunning ->
  (forall e, mainPc t <> ServeReturned (Some e)) ->
  step t a = Some t' ->
  match a with
  | ServerReturns err =>
      serverPc t' = ErrBuffered err /\
      (forall e, mainPc t' <> ServeReturned (Some e)) /\
      mainPc t' <> AtServeTLS
  | ServeTLSReturns err => mainPc t' = ServeReturned (Some err)
  | _ =>
      serverPc t' = ServerRunning /\
      (forall e, mainPc t' <> ServeReturned (Some e))
  end.
Proof.
  destruct t as [m o s h]. cbn. intros -> Hret. unfold step. cbn.
  destruct a as [ | | | e' | e' | | | e'];
    destruct m as [ | | | [e |]]; destruct o as [ | | | | why]; cbn;
    intros Hstep; try discriminate Hstep; injection Hstep as <-; cbn;
    repeat split; try discriminate; try congruence.
  all: try (intros e0 He0; now apply (Hret e0)).
Qed.

(** The error that [Serve] returns is the one with which the server
    returned in that run. *)
Lemma returned_error_is_servers (acts : list Action) (t t' : Threads) :
  serverPc t = ServerRunning ->
  (forall e, mainPc t <> ServeReturned (Some e)) ->
  exec t acts = Some t' ->
  forall e, mainPc t' = ServeReturned (Some e) -> server_error acts = Some e.
Proof.
  revert t. induction acts as [| a acts IH]; intros t Hs Hret; cbn [exec].
  - intros [= <-] e He. now apply Hret in He.
  - destruct (step t a) as [t1 |] eqn:Hstep; [ | discriminate ].
    intros Hexec e He.
    pose proof (running_step t t1 a Hs Hret Hstep) as Hnext.
    destruct a as [ | | | e' | e' | | | e']; cbn [server_error].
    + now apply (IH t1 (proj1 Hnext) (proj2 Hnext) Hexec).
    + now apply (IH t1 (proj1 Hnext) (proj2 Hnext) Hexec).
    + now apply (IH t1 (proj1 Hnext) (proj2 Hnext) Hexec).
    + now apply (IH t1 (proj1 Hnext) (proj2 Hnext) Hexec).
    + destruct Hnext as (Hs1 & Hret1 & Htls1).
      now rewrite (buffered_exec acts t1 t' e' Hs1 Hret1 Htls1 Hexec e He).
    + now apply (IH t1 (proj1 Hnext) (proj2 Hnext) Hexec).
    + now apply (IH t1 (proj1 Hnext) (proj2 Hnext) Hexec).
    + rewrite (returned_exec acts t1 t' _ Hnext Hexec) in He.
      now injection He as <-.
Qed.

Lemma Serve_start_running (X : Extern) (reg : Registry) (t0 : Threads) :
  threads_of (value_of (Serve_start X reg)) = Some t0 ->
  serverPc t0 = ServerRunning /\
  (forall r, mainPc t0 <> ServeReturned r).
Proof.
  destruct (value_of (Serve_start X reg)) as [err | srv l c k hoc | srv l hoc];
    cbn; [ discriminate | | ]; intros [= <-]; cbn; split;
    try reflexivity; discriminate.
Qed.

(** C8.  Once the handover is initiated and [s.Shutdown] has returned, the
    goroutine of [OfferHandover] having closed the channel, [Serve] has
    returned nil or stands at its second receive, which the closed channel
    lets through to [return nil]; it returns no error then or later, and
    [MustServe] returns without calling [log.Fatal]. *)
Theorem completed_handover_returns_nil (X : Extern) (reg : Registry)
    (t : Threads) (why : OfferExit) :
  reachable X reg t ->
  offerPc t = ChannelClosed why ->
  shutdownCalled t = true ->
  (Serve_result t = Some None \/
   Serve_result t = None /\
   exists t', step t ReceiveClosed = Some t' /\ Serve_result t' = Some None) /\
  (forall acts t' err,
     exec t acts = Some t' -> Serve_result t' <> Some (Some err)) /\
  MustServe None = mret ReturnsNormally.
Proof.
  intros Hreach Hclosed Hshutdown.
  assert (beforeSend (offerPc t) = false) as Hsent.
  { unfold shutdownCalled in Hshutdown. rewrite Hclosed in *.
    now destruct why. }
  split; [ | split; [ | reflexivity ] ].
  - pose proof (consistent_reachable X reg t Hreach) as Hinv.
    unfold consistent in Hinv. unfold Serve_result, step.
    rewrite Hclosed in *.
    destruct (mainPc t) as [ | | | [err |]] eqn:Hmain.
    + destruct Hinv as [_ Hinv]. rewrite Hsent in Hinv. discriminate Hinv.
    + destruct Hinv as [_ Hinv]. rewrite Hsent in Hinv. discriminate Hinv.
    + right. split; [ reflexivity | ]. eexists. split; reflexivity.
    + destruct Hinv as [Hinv _]. rewrite Hsent in Hinv. discriminate Hinv.
    + now left.
  - intros acts t' err Hexec Hresult.
    pose proof (reachable_exec X reg t t' acts Hreach Hexec) as Hreach'.
    pose proof (consistent_reachable X reg t' Hreach') as Hinv.
    pose proof (closed_exec acts t t' why Hclosed Hexec) as Hclosed'.
    unfold consistent in Hinv. unfold Serve_result in Hresult.
    destruct (mainPc t') as [ | | | r]; try discriminate Hresult.
    injection Hresult as ->. destruct Hinv as [Hinv _].
    rewrite Hclosed', <- Hclosed, Hsent in Hinv. discriminate Hinv.
Qed.

(** In the sample deployment: the offer succeeds, [Serve] receives
    [true], the shutdown completes, and the server's [ErrServerClosed]
    arrives on [srvErrChan]. *)
Lemma completed_handover_returns_nil_witness :
  let X := Sample.env EmptyString in
  let reg := Sample.registry Sample.config in
  let t := {| mainPc := AtWaitShutdown;
              offerPc := ChannelClosed ShutdownComplete;
              serverPc := ErrBuffered "http: Server closed";
              hasShutdowner := true |} in
  reachable X reg t /\
  exists t', step t ReceiveClosed = Some t' /\ Serve_result t' = Some None.
Proof.
  intros X reg t.
  assert (reachable X reg t) as Hreach.
  { eexists.
    exists [OfferSucceeds; DeliverTrue; ShutdownReturns None;
            ServerReturns "http: Server closed"].
    split; reflexivity. }
  split; [ exact Hreach | ].
  destruct (completed_handover_returns_nil X reg t ShutdownComplete Hreach
              eq_refl eq_refl) as [[Hret | [_ Hstep]] _].
  - discriminate Hret.
  - exact Hstep.
Defined.

(** C2, the claim as the spec has it, fails: the offer fails, the server
    is running on the listener, which nobody closed, and [Serve] takes the
    closed channel for the end of a handover and returns nil. *)
Lemma donor_does_not_keep_serving :
  ~ donor_keeps_serving (Sample.env EmptyString) (Sample.registry Sample.config).
Proof.
  intros Hclaim.
  apply (Hclaim {| mainPc := ServeReturned None;
                   offerPc := ChannelClosed OfferFailed;
                   serverPc := ServerRunning;
                   hasShutdowner := true |}).
  - eexists. exists [OfferFails; ReceiveClosed]. split; reflexivity.
  - reflexivity.
  - reflexivity.
Qed.

(** C2, amended.  When the donor's offer fails, the goroutine closes the
    handover channel without calling [Shutdown]: the HTTP server is left
    running on the listener.  Serving HTTPS, [Serve] stays in [ServeTLS]
    and returns only what the server returns.  Serving HTTP, [Serve] does
    not wait: its [select] can take the closed channel at once, and then
    it returns nil; it returns the server's error if it takes that first.
    An error that [Serve] returns is the very error with which the server
    returned in that run. *)
Theorem failed_offer_outcome (X : Extern) (reg : Registry) (t0 t : Threads)
    (acts : list Action) :
  threads_of (value_of (Serve_start X reg)) = Some t0 ->
  exec t0 acts = Some t ->
  offerPc t = ChannelClosed OfferFailed ->
  shutdownCalled t = false /\
  match TLS (reg_Config reg) with
  | Some _ =>
      mainPc t = AtServeTLS \/
      exists err,
        mainPc t = ServeReturned (Some err) /\ serverPc t = ErrTaken /\
        server_error acts = Some err
  | None =>
      (mainPc t = AtSelect /\
       exists t', step t ReceiveClosed = Some t' /\ Serve_result t' = Some None) \/
      mainPc t = ServeReturned None \/
      exists err,
        mainPc t = ServeReturned (Some err) /\ serverPc t = ErrTaken /\
        server_error acts = Some err
  end.
Proof.
  intros Hstart Hexec Hfailed.
  split; [ unfold shutdownCalled; now rewrite Hfailed | ].
  assert (reachable X reg t) as Hreach by (exists t0, acts; now split).
  pose proof (consistent_reachable X reg t Hreach) as Hinv.
  destruct (Serve_start_running X reg t0 Hstart) as [Hrun Hnot].
  pose proof (returned_error_is_servers acts t0 t Hrun
                (fun e => Hnot (Some e)) Hexec) as Hsame.
  unfold consistent, servesTLS in Hinv. unfold step. rewrite Hfailed in *.
  destruct (TLS (reg_Config reg));
    destruct (mainPc t) as [ | | | [err |]] eqn:Hmain; cbn in Hinv.
  - now left.
  - destruct Hinv as [Hinv _]. discriminate Hinv.
  - destruct Hinv as [Hinv _]. discriminate Hinv.
  - right. exists err. destruct Hinv as [_ Hinv].
    repeat split; [ exact Hinv | now apply Hsame ].
  - discriminate Hinv.
  - destruct Hinv as [Hinv _]. discriminate Hinv.
  - left. split; [ reflexivity | ]. eexists. split; reflexivity.
  - destruct Hinv as [_ Hinv]. discriminate Hinv.
  - right; right. exists err. destruct Hinv as [_ Hinv].
    repeat split; [ exact Hinv | now apply Hsame ].
  - right; now left.
Qed.

(** In the sample deployment, serving HTTP right after the offer failed,
    and serving HTTPS when [ServeTLS] fails after the offer did. *)
Lemma failed_offer_outcome_witness :
  let X := Sample.env EmptyString in
  let t := {| mainPc := AtSelect;
              offerPc := ChannelClosed OfferFailed;
              serverPc := ServerRunning;
              hasShutdowner := true |} in
  let tTLS := {| mainPc := ServeReturned (Some "tls: failed to find any PEM data");
                 offerPc := ChannelClosed OfferFailed;
                 serverPc := ErrTaken;
                 hasShutdowner := true |} in
  let actsTLS := [OfferFails; ServeTLSReturns "tls: failed to find any PEM data"] in
  (reachable X (Sample.registry Sample.config) t /\
   shutdownCalled t = false /\
   exists t', step t ReceiveClosed = Some t' /\ Serve_result t' = Some None) /\
  (reachable X (Sample.registry Sample.configTLS) tTLS /\
   shutdownCalled tTLS = false /\
   server_error actsTLS = Some "tls: failed to find any PEM data").
Proof.
  intros X t tTLS actsTLS.
  assert (reachable X (Sample.registry Sample.config) t) as Hreach
    by (eexists; exists [OfferFails]; split; reflexivity).
  assert (reachable X (Sample.registry Sample.configTLS) tTLS) as HreachTLS
    by (eexists; exists actsTLS; split; reflexivity).
  destruct (failed_offer_outcome X (Sample.registry Sample.config) _ t
              [OfferFails] eq_refl eq_refl eq_refl) as [Hshut Hmain].
  destruct (failed_offer_outcome X (Sample.registry Sample.configTLS) _ tTLS
              actsTLS eq_refl eq_refl eq_refl) as [HshutTLS HmainTLS].
  split.
  - split; [ exact Hreach | ]. split; [ exact Hshut | ].
    cbn in Hmain. destruct Hmain as [[_ Hstep] | [Hret | (err & Hret & _)]].
    + exact Hstep.
    + discriminate Hret.
    + discriminate Hret.
  - split; [ exact HreachTLS | ]. split; [ exact HshutTLS | ].
    cbn in HmainTLS. destruct HmainTLS as [Hret | (err & Hret & _ & Herr)].
    + discriminate Hret.
    + injection Hret as <-. exact Herr.
Defined.

(** ** The spec cache *)

Lemma SpecCache_add_bounded (name : string) (spec : ImageSpec) (c : SpecCache.t) :
  (length (SpecCache.entries (SpecCache.add name spec c))
   <= Z.to_nat (SpecCache.space c))%nat.
Proof. unfold SpecCache.add. cbn. rewrite length_firstn. lia. Qed.

Lemma SpecCache_GetSpec_space (delegate : string -> error + ImageSpec)
    (name : string) (c : SpecCache.t) :
  SpecCache.space (snd (fst (SpecCache.GetSpec delegate name c)))
  = SpecCache.space c.
Proof.
  unfold SpecCache.GetSpec.
  destruct (SpecCache.lookup name (SpecCache.entries c)); [ reflexivity | ].
  destruct (delegate name); reflexivity.
Qed.

Lemma SpecCache_GetSpec_bounded (delegate : string -> error + ImageSpec)
    (name : string) (c : SpecCache.t) :
  (length (SpecCache.entries c) <= Z.to_nat (SpecCache.space c))%nat ->
  (length (SpecCache.entries (snd (fst (SpecCache.GetSpec delegate name c))))
   <= Z.to_nat (SpecCache.space c))%nat.
Proof.
  intros Hc. unfold SpecCache.GetSpec.
  destruct (SpecCache.lookup name (SpecCache.entries c));
    [ apply SpecCache_add_bounded | ].
  destruct (delegate name); [ exact Hc | apply SpecCache_add_bounded ].
Qed.

Lemma SpecCache_serve_bounded (delegate : string -> error + ImageSpec)
    (names : list string) (c : SpecCache.t) :
  (length (SpecCache.entries c) <= Z.to_nat (SpecCache.space c))%nat ->
  SpecCache.space (SpecCache.serve delegate names c) = SpecCache.space c /\
  (length (SpecCache.entries (SpecCache.serve delegate names c))
   <= Z.to_nat (SpecCache.space c))%nat.
Proof.
  revert c. induction names as [| n names IH]; intros c Hc; cbn.
  - now split.
  - pose proof (SpecCache_GetSpec_bounded delegate n c Hc) as Hnext.
    rewrite <- (SpecCache_GetSpec_space delegate n c) in Hnext |- *.
    now apply IH.
Qed.

Lemma SpecCache_lookup_add (name : string) (spec : ImageSpec) (c : SpecCache.t) :
  0 < SpecCache.space c ->
  SpecCache.lookup name (SpecCache.entries (SpecCache.add name spec c))
  = Some spec.
Proof.
  intros Hspace. unfold SpecCache.add. cbn.
  destruct (Z.to_nat (SpecCache.space c)) as [| n] eqn:Hn; [ lia | ].
  cbn. now rewrite String.eqb_refl.
Qed.

(** A name that was answered is answered again from the cache, without
    asking the delegate. *)
Lemma SpecCache_hit_after_answer (delegate : string -> error + ImageSpec)
    (name : string) (spec : ImageSpec) (c : SpecCache.t) :
  0 < SpecCache.space c ->
  fst (fst (SpecCache.GetSpec delegate name c)) = inr spec ->
  let c' := snd (fst (SpecCache.GetSpec delegate name c)) in
  fst (fst (SpecCache.GetSpec delegate name c')) = inr spec /\
  snd (SpecCache.GetSpec delegate name c') = [].
Proof.
  intros Hspace. unfold SpecCache.GetSpec at 1 2.
  destruct (SpecCache.lookup name (SpecCache.entries c)) as [cached |] eqn:Hc.
  - cbn. intros [= ->]. unfold SpecCache.GetSpec.
    now rewrite (SpecCache_lookup_add name spec c Hspace).
  - destruct (delegate name) as [err | answer]; [ discriminate | ].
    cbn. intros [= ->]. unfold SpecCache.GetSpec.
    now rewrite (SpecCache_lookup_add name spec c Hspace).
Qed.

(** An error of the delegate leaves the cache as it was. *)
Lemma SpecCache_error_not_cached (delegate : string -> error + ImageSpec)
    (name : string) (err : error) (c : SpecCache.t) :
  SpecCache.lookup name (SpecCache.entries c) = None ->
  delegate name = inl err ->
  SpecCache.GetSpec delegate name c = (inl err, c, [name]).
Proof. intros Hc Hd. unfold SpecCache.GetSpec. now rewrite Hc, Hd. Qed.

Lemma NewRegistry_remote_provider (X : Extern) (cfg : Config)
    (newResolver : ResolverProvider) (rsp : RemoteSpecProviderConfig)
    (reg : Registry) :
  RemoteSpecProvider cfg = Some rsp ->
  value_of (NewRegistry X cfg newResolver) = inr reg ->
  exists opts,
    value_of (remoteDialOptions X rsp) = inr opts /\
    reg_SpecProvider reg
    = {[ ProviderPrefixRemote
         := CachingSpecProvider 128 (RemoteSpecProvider' (Addr rsp) opts) ]}.
Proof.
  intros Hrsp. unfold NewRegistry. rewrite value_try, value_call.
  destruct (local_NewStore_err X _); [ discriminate | ].
  rewrite value_try. cbn [value_of mret M_ret snd].
  destruct (newMetrics_err X); [ discriminate | ].
  rewrite value_try. cbn [value_of mret M_ret snd].
  destruct (NewSpecMappedImageSource_err X); [ discriminate | ].
  rewrite value_bind, value_try.
  destruct (value_of (staticLayers X newResolver (StaticLayer cfg) _));
    [ discriminate | ].
  rewrite value_try. cbn [value_of mret M_ret snd].
  destruct (NewContentLayerSource_err X); [ discriminate | ].
  rewrite value_try, Hrsp, value_try.
  destruct (value_of (remoteDialOptions X rsp)) as [err | opts];
    [ discriminate | ].
  destruct (NewCachingSpecProvider_err X 128); [ discriminate | ].
  cbn. intros [= <-]. exists opts. split; reflexivity.
Qed.

(** ** The cache holds the most recently used names *)

Lemma firstn_In {A : Type} (x : A) (n : nat) (l : list A) :
  In x (firstn n l) -> In x l.
Proof.
  revert n. induction l as [| y l IH]; intros [| n]; cbn; try tauto.
  intros [-> | Hin]; [ now left | right; now apply (IH n) ].
Qed.

Lemma firstn_keys_NoDup (n : nat) (es : list (string * ImageSpec)) :
  List.NoDup (map fst es) -> List.NoDup (map fst (firstn n es)).
Proof.
  revert n. induction es as [| [k v] es IH]; intros [| n] Hnd; cbn;
    try apply List.NoDup_nil.
  inversion Hnd as [| ? ? Hnot Hnd']; subst.
  apply List.NoDup_cons; [ | now apply IH ].
  intros Hin. apply Hnot. apply in_map_iff in Hin as ([k' v'] & Hk & Hin).
  apply in_map_iff. exists (k', v'). split; [ exact Hk | ].
  now apply (firstn_In _ n).
Qed.

Lemma SpecCache_lookup_In (name : string) (spec : ImageSpec)
    (es : list (string * ImageSpec)) :
  SpecCache.lookup name es = Some spec -> In (name, spec) es.
Proof.
  induction es as [| [k v] es IH]; cbn; [ discriminate | ].
  destruct (String.eqb k name) eqn:Hk.
  - apply String.eqb_eq in Hk. subst k. intros [= ->]. now left.
  - intros Hin. right. now apply IH.
Qed.

(** The cache is keyed by name: there is one entry for a name at most, and
    it is what a lookup of the name finds. *)
Lemma SpecCache_In_lookup (name : string) (spec : ImageSpec)
    (es : list (string * ImageSpec)) :
  List.NoDup (map fst es) ->
  In (name, spec) es -> SpecCache.lookup name es = Some spec.
Proof.
  induction es as [| [k v] es IH]; cbn; [ tauto | ].
  intros Hnd. inversion Hnd as [| ? ? Hnot Hnd']; subst.
  destruct (String.eqb k name) eqn:Hk.
  - apply String.eqb_eq in Hk. subst k.
    intros [[= ->] | Hin]; [ reflexivity | ].
    exfalso. apply Hnot. apply in_map_iff. now exists (name, spec).
  - apply String.eqb_neq in Hk.
    intros [[= -> _] | Hin]; [ congruence | now apply IH ].
Qed.

Lemma SpecCache_remove_absent (name : string) (es : list (string * ImageSpec)) :
  ~ In name (map fst es) -> SpecCache.remove name es = es.
Proof.
  induction es as [| [k v] es IH]; cbn; [ reflexivity | ].
  intros Hnot. destruct (String.eqb k name) eqn:Hk.
  - apply String.eqb_eq in Hk. exfalso. apply Hnot. now left.
  - f_equal. apply IH. intros Hin. apply Hnot. now right.
Qed.

Lemma SpecCache_remove_keys (name k : string) (es : list (string * ImageSpec)) :
  In k (map fst (SpecCache.remove name es)) <-> k <> name /\ In k (map fst es).
Proof.
  induction es as [| [k0 v] es IH]; cbn; [ tauto | ].
  destruct (String.eqb k0 name) eqn:Hk.
  - apply String.eqb_eq in Hk. subst k0. rewrite IH.
    split; [ tauto | ]. intros [Hne [Heq | Hin]]; [ congruence | tauto ].
  - apply String.eqb_neq in Hk. cbn. rewrite IH. split.
    + intros [<- | [Hne Hin]]; [ split; [ exact Hk | now left ] | tauto ].
    + intros [Hne [Heq | Hin]]; tauto.
Qed.

Lemma SpecCache_remove_NoDup (name : string) (es : list (string * ImageSpec)) :
  List.NoDup (map fst es) -> List.NoDup (map fst (SpecCache.remove name es)).
Proof.
  induction es as [| [k v] es IH]; cbn; [ intros _; apply List.NoDup_nil | ].
  intros Hnd. inversion Hnd as [| ? ? Hnot Hnd']; subst.
  destruct (String.eqb k name); [ now apply IH | ].
  cbn. apply List.NoDup_cons; [ | now apply IH ].
  rewrite SpecCache_remove_keys. tauto.
Qed.

Lemma SpecCache_remove_Forall (P : string * ImageSpec -> Prop) (name : string)
    (es : list (string * ImageSpec)) :
  List.Forall P es -> List.Forall P (SpecCache.remove name es).
Proof.
  induction es as [| [k v] es IH]; cbn; [ intros _; apply List.Forall_nil | ].
  intros Hall. inversion Hall as [| ? ? Hp Hall']; subst.
  destruct (String.eqb k name); [ now apply IH | ].
  apply List.Forall_cons; [ exact Hp | now apply IH ].
Qed.

(** Cutting the list to the capacity before the name is moved to the
    front, or only after: the same entries are kept. *)
Lemma SpecCache_firstn_remove (name : string) (es : list (string * ImageSpec))
    (j : nat) :
  List.NoDup (map fst es) ->
  firstn j (SpecCache.remove name (firstn (S j) es))
  = firstn j (SpecCache.remove name es).
Proof.
  revert j. induction es as [| [k v] es IH]; intros j Hnd; [ reflexivity | ].
  inversion Hnd as [| ? ? Hnot Hnd']; subst.
  cbn [firstn SpecCache.remove]. destruct (String.eqb k name) eqn:Hk.
  - apply String.eqb_eq in Hk. subst k.
    rewrite (SpecCache_remove_absent name es Hnot).
    rewrite SpecCache_remove_absent.
    + rewrite firstn_firstn. now rewrite Nat.min_id.
    + intros Hin. apply Hnot. apply in_map_iff in Hin as ([k' v'] & Hk & Hin).
      apply in_map_iff. exists (k', v'). split; [ exact Hk | ].
      now apply (firstn_In _ j).
  - destruct j as [| i]; [ reflexivity | ].
    cbn [firstn]. f_equal. now apply IH.
Qed.

(** What the delegate answered is what the record of the used names
    holds, once for a name. *)
Lemma SpecCache_used_sound (delegate : string -> error + ImageSpec)
    (es : list (string * ImageSpec)) (name : string) :
  List.NoDup (map fst es) ->
  List.Forall (fun e => delegate (fst e) = inr (snd e)) es ->
  List.NoDup (map fst (SpecCache.used delegate es name)) /\
  List.Forall (fun e => delegate (fst e) = inr (snd e))
    (SpecCache.used delegate es name).
Proof.
  intros Hnd Hall. unfold SpecCache.used.
  destruct (delegate name) as [err | spec] eqn:Hd; [ now split | ].
  split.
  - cbn. apply List.NoDup_cons; [ | now apply SpecCache_remove_NoDup ].
    rewrite SpecCache_remove_keys. tauto.
  - apply List.Forall_cons; [ exact Hd | now apply SpecCache_remove_Forall ].
Qed.

Lemma SpecCache_add_firstn (name : string) (spec : ImageSpec) (c : SpecCache.t)
    (es : list (string * ImageSpec)) :
  List.NoDup (map fst es) ->
  SpecCache.entries c = firstn (Z.to_nat (SpecCache.space c)) es ->
  SpecCache.entries (SpecCache.add name spec c)
  = firstn (Z.to_nat (SpecCache.space c)) ((name, spec) :: SpecCache.remove name es).
Proof.
  intros Hnd Hc. unfold SpecCache.add. cbn [SpecCache.entries]. rewrite Hc.
  destruct (Z.to_nat (SpecCache.space c)) as [| j]; [ reflexivity | ].
  cbn [firstn]. f_equal. now apply SpecCache_firstn_remove.
Qed.

Lemma SpecCache_GetSpec_history (delegate : string -> error + ImageSpec)
    (name : string) (c : SpecCache.t) (es : list (string * ImageSpec)) :
  List.NoDup (map fst es) ->
  List.Forall (fun e => delegate (fst e) = inr (snd e)) es ->
  SpecCache.entries c = firstn (Z.to_nat (SpecCache.space c)) es ->
  SpecCache.entries (snd (fst (SpecCache.GetSpec delegate name c)))
  = firstn (Z.to_nat (SpecCache.space c)) (SpecCache.used delegate es name).
Proof.
  intros Hnd Hall Hc. unfold SpecCache.GetSpec, SpecCache.used.
  destruct (SpecCache.lookup name (SpecCache.entries c)) as [spec |] eqn:Hl.
  - apply SpecCache_lookup_In in Hl. rewrite Hc in Hl.
    apply firstn_In in Hl.
    rewrite List.Forall_forall in Hall.
    pose proof (Hall _ Hl) as Hd. cbn [fst snd] in Hd. rewrite Hd.
    cbn [fst snd]. now apply SpecCache_add_firstn.
  - destruct (delegate name) as [err | spec]; cbn [fst snd];
      [ exact Hc | now apply SpecCache_add_firstn ].
Qed.

Lemma SpecCache_serve_history (delegate : string -> error + ImageSpec)
    (names : list string) (c : SpecCache.t) (es : list (string * ImageSpec)) :
  List.NoDup (map fst es) ->
  List.Forall (fun e => delegate (fst e) = inr (snd e)) es ->
  SpecCache.entries c = firstn (Z.to_nat (SpecCache.space c)) es ->
  let used := fold_left (SpecCache.used delegate) names es in
  SpecCache.entries (SpecCache.serve delegate names c)
  = firstn (Z.to_nat (SpecCache.space c)) used /\
  List.NoDup (map fst used) /\
  List.Forall (fun e => delegate (fst e) = inr (snd e)) used.
Proof.
  revert c es. induction names as [| n names IH]; intros c es Hnd Hall Hc;
    cbn [fold_left SpecCache.serve]; [ now repeat split | ].
  destruct (SpecCache_used_sound delegate es n Hnd Hall) as [Hnd1 Hall1].
  pose proof (SpecCache_GetSpec_history delegate n c es Hnd Hall Hc) as Hc1.
  rewrite <- (SpecCache_GetSpec_space delegate n c) in Hc1 |- *.
  now apply IH.
Qed.

(** C10.  With a remote spec provider configured, the registry that
    [NewRegistry] returns has, under the remote provider prefix, the
    remote provider at the configured address wrapped by
    [NewCachingSpecProvider] with space 128.  For the cache as the spec
    describes it, after any run of requests: it holds the 128 most
    recently used of the names that were answered, in the order of their
    use, so nothing is evicted while no more than 128 names were answered,
    and beyond that the least recently used are; it is keyed by name, one
    entry for a name, found by looking the name up, and holding what the
    remote provider answered for that name; and a name that was answered
    is answered again without a call to the remote provider. *)
Theorem remote_provider_cached (X : Extern) (cfg : Config)
    (newResolver : ResolverProvider) (rsp : RemoteSpecProviderConfig)
    (reg : Registry) :
  RemoteSpecProvider cfg = Some rsp ->
  value_of (NewRegistry X cfg newResolver) = inr reg ->
  exists opts,
    let provider :=
      CachingSpecProvider 128 (RemoteSpecProvider' (Addr rsp) opts) in
    reg_SpecProvider reg !! ProviderPrefixRemote = Some provider /\
    SpecCache.cacheOf provider = Some (SpecCache.new 128) /\
    forall (delegate : string -> error + ImageSpec) (names : list string),
      let c := SpecCache.serve delegate names (SpecCache.new 128) in
      let used := SpecCache.history delegate names in
      SpecCache.entries c = firstn 128 used /\
      ((length used <= 128)%nat -> SpecCache.entries c = used) /\
      used = (SpecCache.entries c ++ skipn 128 used)%list /\
      List.NoDup (map fst used) /\
      (forall name spec,
         SpecCache.lookup name (SpecCache.entries c) = Some spec <->
         In (name, spec) (firstn 128 used)) /\
      (forall name spec, In (name, spec) used -> delegate name = inr spec) /\
      (length (SpecCache.entries c) <= 128)%nat /\
      forall name spec,
        fst (fst (SpecCache.GetSpec delegate name c)) = inr spec ->
        let c' := snd (fst (SpecCache.GetSpec delegate name c)) in
        fst (fst (SpecCache.GetSpec delegate name c')) = inr spec /\
        snd (SpecCache.GetSpec delegate name c') = [].
Proof.
  intros Hrsp Hreg.
  destruct (NewRegistry_remote_provider X cfg newResolver rsp reg Hrsp Hreg)
    as (opts & _ & Hmap).
  exists opts. cbv zeta. split; [ | split; [ reflexivity | ] ].
  - rewrite Hmap. apply lookup_singleton_eq.
  - intros delegate names.
    destruct (SpecCache_serve_bounded delegate names (SpecCache.new 128))
      as [Hspace Hlen]; [ cbn; lia | ].
    destruct (SpecCache_serve_history delegate names (SpecCache.new 128) [])
      as (Hentries & Hnd & Hall);
      [ apply List.NoDup_nil | apply List.Forall_nil | reflexivity | ].
    cbv zeta in Hentries, Hnd, Hall.
    fold (SpecCache.history delegate names) in Hentries, Hnd, Hall.
    change (Z.to_nat (SpecCache.space (SpecCache.new 128))) with 128%nat
      in Hentries.
    split; [ exact Hentries | ].
    split; [ intros Hfew; rewrite Hentries; now apply firstn_all2 | ].
    split; [ rewrite Hentries; symmetry; apply firstn_skipn | ].
    split; [ exact Hnd | ].
    split.
    { intros name spec. rewrite Hentries. split.
      - apply SpecCache_lookup_In.
      - apply SpecCache_In_lookup. now apply firstn_keys_NoDup. }
    split.
    { intros name spec Hin. rewrite List.Forall_forall in Hall.
      exact (Hall _ Hin). }
    split; [ exact Hlen | ].
    intros name spec. apply SpecCache_hit_after_answer.
    rewrite Hspace. reflexivity.
Qed.

(** In the sample deployment, the provider registered for [remote]; and
    its cache after 129 names, and after 128 names, the first name again,
    and one more: the name that was not used for the longest time is the
    one that went. *)
Lemma remote_provider_cached_witness :
  let X := Sample.env EmptyString in
  let delegate := fun name => inr {| BaseRef := name; IdeRef := "ide" |} in
  let first128 := map (fun n => itoa (Z.of_nat n)) (seq 0 128) in
  let cached names name :=
    SpecCache.lookup name
      (SpecCache.entries
         (SpecCache.serve delegate names (SpecCache.new 128))) in
  (exists reg opts,
     value_of (NewRegistry X Sample.config "docker") = inr reg /\
     reg_SpecProvider reg !! ProviderPrefixRemote
     = Some (CachingSpecProvider 128 (RemoteSpecProvider' "ws-manager:8080" opts))) /\
  Forall (fun name => cached first128 name <> None) first128 /\
  cached (first128 ++ ["128"])%list "0" = None /\
  cached (first128 ++ ["128"])%list "1" <> None /\
  cached (first128 ++ ["0"; "128"])%list "0" <> None /\
  cached (first128 ++ ["0"; "128"])%list "1" = None.
Proof.
  intros X delegate first128 cached.
  destruct (remote_provider_cached X Sample.config "docker" _ _ eq_refl eq_refl)
    as (opts & Hprov & _ & Hcache).
  split; [ eexists; exists opts; split; [ reflexivity | exact Hprov ] | ].
  split.
  { apply List.Forall_forall. intros name Hin.
    destruct (Hcache delegate first128) as (_ & Hall & _).
    unfold cached. rewrite Hall by (vm_compute; lia).
    revert name Hin. apply List.Forall_forall. vm_compute.
    repeat (apply List.Forall_cons; [ discriminate | ]). apply List.Forall_nil. }
  repeat split; vm_compute; discriminate.
Defined.

(* ===================================================================== *)
(** * Part VIII. Further properties of the package *)
(* ===================================================================== *)

(** ** Route variables in the context *)

Lemma HasPrefix_app (prefix s : string) : HasPrefix (prefix +:+ s) prefix = true.
Proof.
  induction prefix as [| p prefix IH]; [ reflexivity | ].
  rewrite append_cons. cbn. now rewrite Ascii.eqb_refl.
Qed.

Lemma drop_bytes_app (prefix s : string) :
  drop_bytes (String.length prefix) (prefix +:+ s) = s.
Proof.
  induction prefix as [| p prefix IH]; [ reflexivity | ].
  rewrite append_cons. exact IH.
Qed.

Lemma TrimPrefix_app (prefix s : string) : TrimPrefix (prefix +:+ s) prefix = s.
Proof. unfold TrimPrefix. now rewrite HasPrefix_app, drop_bytes_app. Qed.

(** X1.  A route variable answers under its name with the prefix [vars.]
    whatever the name is, and under its bare name when that is neither
    [vars] nor itself prefixed; the parent context is not asked. *)
Theorem muxVarsContext_variable (ctx : muxVarsContext) (k v : string) :
  mvc_vars ctx !! k = Some v ->
  muxVarsContext_Value ctx (AnyString ("vars." +:+ k)) = AnyString v /\
  (k <> "vars" -> HasPrefix k "vars." = false ->
   muxVarsContext_Value ctx (AnyString k) = AnyString v).
Proof.
  intros Hvar. split.
  - unfold muxVarsContext_Value.
    replace (String.eqb ("vars." +:+ k) "vars") with false
      by (destruct k; reflexivity).
    now rewrite HasPrefix_app, TrimPrefix_app, Hvar.
  - intros Hname Hbare. unfold muxVarsContext_Value.
    apply String.eqb_neq in Hname. now rewrite Hname, Hbare, Hvar.
Qed.

(** The variables of a manifest request, over an empty context. *)
Lemma muxVarsContext_variable_witness :
  let ctx := {| mvc_Context := fun _ => AnyNil;
                mvc_vars := {[ "name" := "remote/acme"; "reference" := "latest" ]} |} in
  muxVarsContext_Value ctx (AnyString "vars.reference") = AnyString "latest" /\
  muxVarsContext_Value ctx (AnyString "reference") = AnyString "latest".
Proof.
  intros ctx.
  destruct (muxVarsContext_variable ctx "reference" "latest" eq_refl)
    as [Hprefixed Hbare].
  split; [ exact Hprefixed | ].
  apply Hbare; [ discriminate | reflexivity ].
Defined.

(** X2.  What the variables do not answer goes to the parent context
    under the key as it was given, prefix included: a key that is not a
    string, and a string key, other than [vars], that names no variable
    once its prefix is taken off. *)
Theorem muxVarsContext_falls_through (ctx : muxVarsContext) (key : Any) :
  (forall s, key = AnyString s ->
     s <> "vars" /\ mvc_vars ctx !! TrimPrefix s "vars." = None) ->
  muxVarsContext_Value ctx key = mvc_Context ctx key.
Proof.
  intros Hkey. destruct key as [ | s | vars | tag]; try reflexivity.
  destruct (Hkey s eq_refl) as [Hname Hmissing].
  unfold muxVarsContext_Value. apply String.eqb_neq in Hname. rewrite Hname.
  unfold TrimPrefix in Hmissing.
  destruct (HasPrefix s "vars.") eqn:Hprefix.
  - unfold TrimPrefix. rewrite Hprefix. now rewrite Hmissing.
  - now rewrite Hmissing.
Qed.

(** A request without the variable [digest], under a parent that knows
    the prefixed key. *)
Lemma muxVarsContext_falls_through_witness :
  let parent := fun key =>
    match key with AnyString "vars.digest" => AnyString "sha256:00" | _ => AnyNil end in
  let ctx := {| mvc_Context := parent; mvc_vars := {[ "name" := "remote/acme" ]} |} in
  muxVarsContext_Value ctx (AnyString "vars.digest") = AnyString "sha256:00" /\
  getDigest (muxVarsContext_Value ctx) = "sha256:00".
Proof.
  intros parent ctx.
  assert (muxVarsContext_Value ctx (AnyString "vars.digest") = AnyString "sha256:00")
    as Hvalue.
  { apply (muxVarsContext_falls_through ctx (AnyString "vars.digest")).
    intros s [= <-]. split; [ discriminate | reflexivity ]. }
  split; [ exact Hvalue | ].
  unfold getDigest. now rewrite Hvalue.
Defined.

(** X3.  Under the dispatcher's context the three getters return the route
    variables [name], [reference] and [digest]; a variable that is absent
    reads as what the request's own context holds under the prefixed key,
    if that is a string, and as the empty string otherwise. *)
Theorem getters_read_route_variables (parent : Values)
    (vars : gmap string string) :
  let ctx := muxVarsContext_Value {| mvc_Context := parent; mvc_vars := vars |} in
  let fallback key :=
    match parent (AnyString key) with AnyString s => s | _ => EmptyString end in
  getName ctx = default (fallback "vars.name") (vars !! "name") /\
  getReference ctx = default (fallback "vars.reference") (vars !! "reference") /\
  getDigest ctx = default (fallback "vars.digest") (vars !! "digest").
Proof.
  cbv zeta. unfold getName, getReference, getDigest, muxVarsContext_Value.
  cbn [String.eqb Ascii.eqb Bool.eqb HasPrefix TrimPrefix andb mvc_vars mvc_Context
       String.length drop_bytes].
  repeat split.
  - now destruct (vars !! "name").
  - now destruct (vars !! "reference").
  - now destruct (vars !! "digest").
Qed.

(** ** Provider name and remainder *)

Lemma join_split_slash (s : string) : join_slash (split_slash s) = s.
Proof.
  induction s as [| c r IH]; [ reflexivity | ]. cbn [split_slash].
  pose proof (split_slash_nonempty r) as Hne.
  destruct (Ascii.eqb c slash) eqn:Hc.
  - apply Ascii.eqb_eq in Hc. subst c.
    destruct (split_slash r) as [| y ys]; [ contradiction | ].
    change (join_slash (EmptyString :: y :: ys))
      with (String slash (join_slash (y :: ys))).
    now rewrite IH.
  - destruct (split_slash r) as [| x [| y ys]]; [ contradiction | | ].
    + cbn in IH |- *. now rewrite IH.
    + change (join_slash (String c x :: y :: ys))
        with (String c x +:+ "/" +:+ join_slash (y :: ys)).
      change (join_slash (x :: y :: ys))
        with (x +:+ "/" +:+ join_slash (y :: ys)) in IH.
      now rewrite append_cons, IH.
Qed.

Lemma split_slash_two (s : string) :
  has_slash s = true -> exists x y rest, split_slash s = x :: y :: rest.
Proof.
  induction s as [| c r IH]; [ discriminate | ]. cbn.
  pose proof (split_slash_nonempty r) as Hne.
  destruct (Ascii.eqb c slash); cbn.
  - intros _. destruct (split_slash r) as [| y ys]; [ contradiction | eauto ].
  - intros Hr. destruct (IH Hr) as (x & y & rest & ->). eauto.
Qed.

(** X4.  A name with a separator is cut at its first one: the provider
    name holds no separator, and provider name, separator and remainder
    put together are the name again.  A name without separator gives two
    empty strings. *)
Theorem getSpecProviderName_cuts_at_first_slash (ctx : Values) :
  let name := getName ctx in
  let provider := fst (getSpecProviderName ctx) in
  let remainder := snd (getSpecProviderName ctx) in
  if has_slash name
  then has_slash provider = false /\ name = provider +:+ "/" +:+ remainder
  else provider = EmptyString /\ remainder = EmptyString.
Proof.
  cbv zeta. unfold getSpecProviderName.
  destruct (has_slash (getName ctx)) eqn:Hslash.
  - destruct (split_slash_two _ Hslash) as (x & y & rest & Hsplit).
    pose proof (split_slash_elems (getName ctx)) as Helems.
    pose proof (join_split_slash (getName ctx)) as Hjoin.
    rewrite Hsplit in *. cbn [length Nat.ltb Nat.leb hd tl fst snd].
    split.
    + now inversion Helems.
    + now rewrite <- Hjoin.
  - rewrite (split_slash_file_name _ Hslash). now split.
Qed.

(** ** The dispatcher *)

Section DispatcherProperties.

Variable DumpRequest : Request -> string.
Variable requestContext : Request -> Values.
Variable WithName : string -> option Named * option error.
Variable ServeJSON :
  ErrRepositoryNameInvalid -> ResponseWriter -> ResponseWriter * option error.

(** X5.  The dispatch function is called, with the dispatcher's context
    and on the response as it came in, exactly when the route is the base
    or the catalog route, or the name of the request is accepted by
    [reference.WithName]; in every case the request is dumped on standard
    error first. *)
Theorem dispatcher_calls_exactly_when_name_is_fine (w : ResponseWriter)
    (r : Request) :
  (forall d,
     stderr (value_of (dispatcher DumpRequest requestContext WithName
                         ServeJSON d w r))
     = DumpRequest r) /\
  ((nameRequired r = false \/
    snd (WithName (getName (dispatchContext requestContext r))) = None) <->
   forall d,
     served (value_of (dispatcher DumpRequest requestContext WithName
                         ServeJSON d w r))
     = Answered (d (dispatchContext requestContext r) r w r)).
Proof.
  unfold dispatcher. split; [ | split ].
  - intros d. destruct (nameRequired r); [ | reflexivity ].
    destruct (WithName _) as [[ref |] [err |]]; try reflexivity.
    rewrite !value_bind. reflexivity.
  - intros Hfine d. destruct (nameRequired r); [ | reflexivity ].
    destruct Hfine as [Hfine | Hfine]; [ discriminate Hfine | ].
    destruct (WithName _) as [ref [err |]]; [ discriminate Hfine | reflexivity ].
  - intros Hall. destruct (nameRequired r); [ right | now left ].
    destruct (WithName _) as [[ref |] [err |]]; try reflexivity; exfalso.
    + pose proof (Hall (fun _ _ w _ => rw_Write "a" w)) as Ha.
      pose proof (Hall (fun _ _ w _ => rw_Write "b" w)) as Hb.
      rewrite !value_bind in Ha, Hb. cbn [value_of mret M_ret snd served] in Ha, Hb.
      rewrite Ha in Hb. injection Hb as Hb.
      apply (inj (String.app _)) in Hb. discriminate Hb.
    + specialize (Hall (fun _ _ w _ => w)).
      rewrite value_bind in Hall. discriminate Hall.
Qed.

(** X6.  When [reference.WithName] refuses the name of a request that
    needs one, the dispatch function is not called.  With a reference
    beside the error the answer is what [errcode.ServeJSON] writes for an
    invalid repository name; with no reference, the dispatcher panics
    after logging the error, and the response is left unwritten. *)
Theorem dispatcher_refused_name (d : Values -> Request -> Handler)
    (w : ResponseWriter) (r : Request) (ref : option Named) (err : error) :
  nameRequired r = true ->
  WithName (getName (dispatchContext requestContext r)) = (ref, Some err) ->
  In (EvLog Error "error parsing reference from context")
     (trace_of (dispatcher DumpRequest requestContext WithName ServeJSON
                  d w r)) /\
  served (value_of (dispatcher DumpRequest requestContext WithName ServeJSON
                      d w r))
  = match ref with
    | Some nameRef =>
        Answered (fst (ServeJSON {| err_Name := Named_Name nameRef;
                                    err_Reason := err |} w))
    | None => Panicked
    end.
Proof.
  intros Hreq Hname. unfold dispatcher.
  rewrite Hreq, Hname. rewrite trace_bind, value_bind.
  split; [ now left | ].
  destruct ref as [nameRef |]; [ | reflexivity ].
  rewrite value_bind. unfold respondWithError.
  destruct (ServeJSON _ w) as [w' [jsonErr |]]; reflexivity.
Qed.

End DispatcherProperties.

(** A manifest request whose name the sample [WithName] refuses. *)
Lemma dispatcher_refused_name_witness :
  let r := SampleDispatch.manifestRequest EmptyString in
  served (value_of (dispatcher SampleDispatch.DumpRequest
                      SampleDispatch.requestContext SampleDispatch.WithName
                      SampleDispatch.ServeJSON SampleDispatch.echoName
                      newResponseWriter r))
  = Panicked.
Proof.
  exact (proj2 (dispatcher_refused_name SampleDispatch.DumpRequest
                  SampleDispatch.requestContext SampleDispatch.WithName
                  SampleDispatch.ServeJSON SampleDispatch.echoName
                  newResponseWriter (SampleDispatch.manifestRequest EmptyString)
                  None "invalid reference format" eq_refl eq_refl)).
Defined.

(** A manifest request with a name, and the base route. *)
Lemma dispatcher_calls_exactly_when_name_is_fine_witness :
  let r := SampleDispatch.manifestRequest "remote/acme" in
  rwBody match served (value_of (dispatcher SampleDispatch.DumpRequest
                        SampleDispatch.requestContext SampleDispatch.WithName
                        SampleDispatch.ServeJSON SampleDispatch.echoName
                        newResponseWriter r)) with
         | Answered w => w
         | Panicked => newResponseWriter
         end = "remote/acme".
Proof.
  intros r.
  rewrite (proj1 (proj2 (dispatcher_calls_exactly_when_name_is_fine
             SampleDispatch.DumpRequest SampleDispatch.requestContext
             SampleDispatch.WithName SampleDispatch.ServeJSON
             newResponseWriter r)) (or_intror eq_refl) SampleDispatch.echoName).
  reflexivity.
Defined.

(** ** The routes and their handlers *)

(** X7.  After [registerHandler], a request that the router hands to a
    route (the route matches, and no redirect of the router stands in for
    its handler) goes, with the route's name and variables stored in it,
    to [handleAPIBase] for the base route, to the manifest handler for the
    manifest route and to the blob handler for the blob route; every other
    route of the router answers as [http.NotFound]. *)
Theorem registerHandler_dispatch_table (X : Extern) (prefix name : string)
    (vars : gmap string string) (w : ResponseWriter) (r : Request) :
  route_match X prefix r = ToRoute name vars ->
  let r' := {| Method := Method r; URLPath := URLPath r;
               ReqHeader := ReqHeader r;
               CurrentRoute := Some name; Vars := vars |} in
  Router_ServeHTTP X (registerHandler X (RouterWithPrefix prefix)) w r
  = if String.eqb name RouteNameBase then handleAPIBase w r'
    else if String.eqb name RouteNameManifest then manifestHandler X w r'
    else if String.eqb name RouteNameBlob then blobHandler X w r'
    else http_NotFound w r.
Proof.
  intros Hmatch r'. unfold Router_ServeHTTP.
  rewrite registerHandler_prefix, Hmatch. cbn [routeHandlers registerHandler
    setRouteHandler RouterWithPrefix].
  destruct (String.eqb name RouteNameBase) eqn:Hbase.
  - apply String.eqb_eq in Hbase. subst name.
    rewrite lookup_insert_ne by discriminate.
    rewrite lookup_insert_ne by discriminate.
    now rewrite lookup_insert_eq.
  - apply String.eqb_neq in Hbase.
    destruct (String.eqb name RouteNameManifest) eqn:Hmanifest.
    + apply String.eqb_eq in Hmanifest. subst name.
      rewrite lookup_insert_ne by discriminate.
      now rewrite lookup_insert_eq.
    + apply String.eqb_neq in Hmanifest.
      destruct (String.eqb name RouteNameBlob) eqn:Hblob.
      * apply String.eqb_eq in Hblob. subst name.
        now rewrite lookup_insert_eq.
      * apply String.eqb_neq in Hblob.
        rewrite !lookup_insert_ne by congruence.
        now rewrite lookup_empty.
Qed.

(** In the sample deployment, [/v2/] matches the base route. *)
Lemma registerHandler_dispatch_table_witness :
  let X := Sample.env EmptyString in
  let r := Sample.request "/v2/" ∅ in
  Router_ServeHTTP X (registerHandler X (RouterWithPrefix EmptyString))
    newResponseWriter r
  = handleAPIBase newResponseWriter
      {| Method := "GET"; URLPath := "/v2/"; ReqHeader := ∅;
         CurrentRoute := Some RouteNameBase; Vars := ∅ |}.
Proof.
  exact (registerHandler_dispatch_table (Sample.env EmptyString) EmptyString
           RouteNameBase ∅ newResponseWriter (Sample.request "/v2/" ∅) eq_refl).
Defined.

(** X8.  The base route through the whole handler of [Serve]: a request
    that the mux hands on and the router hands to the base route is
    answered with status 200 and the body [{}] when authentication is not
    required or the request carries a Basic header that parses, whatever
    its method and credentials. *)
Theorem base_route_says_yes (X : Extern) (reg : Registry)
    (w : ResponseWriter) (r : Request) (vars : gmap string string) :
  ServeMux_answers X r = None ->
  route_match X (Prefix (reg_Config reg)) r = ToRoute RouteNameBase vars ->
  rwHead w = None ->
  RequireAuth (reg_Config reg) = false \/ BasicAuth X r <> None ->
  let w' := Serve_handler X reg w r in
  status_of w' = Some 200 /\ rwBody w' = rwBody w +:+ "{}".
Proof.
  intros Hmux Hmatch Hfresh Hauth w'. subst w'.
  rewrite (Serve_handler_passes X reg w r Hmux Hauth).
  unfold Router_ServeHTTP. rewrite registerHandler_prefix, Hmatch.
  cbn [routeHandlers registerHandler setRouteHandler RouterWithPrefix].
  rewrite lookup_insert_ne by discriminate.
  rewrite lookup_insert_ne by discriminate.
  rewrite lookup_insert_eq.
  match goal with
  | |- context [handleAPIBase w ?r'] =>
      destruct (handleAPIBase_answer w r' Hfresh) as (Hs & Hb & _)
  end.
  now split.
Qed.

(** In the sample deployment, which requires authentication, a login
    round trip with credentials. *)
Lemma base_route_says_yes_witness :
  let X := Sample.env EmptyString in
  let reg := Sample.registry Sample.config in
  let w' := Serve_handler X reg newResponseWriter
              (Sample.request "/v2/" Sample.authorized) in
  status_of w' = Some 200 /\ rwBody w' = "{}".
Proof.
  apply (base_route_says_yes (Sample.env EmptyString)
           (Sample.registry Sample.config) newResponseWriter
           (Sample.request "/v2/" Sample.authorized) ∅).
  - reflexivity.
  - reflexivity.
  - reflexivity.
  - right. vm_compute. discriminate.
Defined.

(** ** [NewRegistry]: layers and providers *)

Lemma staticLayers_unknown (X : Extern) (newResolver : ResolverProvider)
    (sls : list StaticLayerConfig) (acc : list LayerSource)
    (sl : StaticLayerConfig) :
  In sl sls -> knownLayerType sl = false ->
  exists err, value_of (staticLayers X newResolver sls acc) = inl err.
Proof.
  intros Hin Hunknown. revert acc.
  induction sls as [| sl0 rest IH]; intros acc; [ destruct Hin | ].
  cbn [staticLayers].
  assert (sl0 <> sl -> In sl rest) as Hrest
    by (intros Hne; destruct Hin as [-> | Hin]; [ contradiction | exact Hin ]).
  destruct (String.eqb (Type' sl0) "file") eqn:Hfile.
  - rewrite value_try, value_wrap_err, value_call.
    destruct (NewFileLayerSource_err X (Ref sl0)); [ eauto | ].
    apply IH, Hrest. intros ->. unfold knownLayerType in Hunknown.
    now rewrite Hfile in Hunknown.
  - destruct (String.eqb (Type' sl0) "image") eqn:Himage; [ | cbn; eauto ].
    rewrite value_try, value_wrap_err, value_call.
    destruct (NewStaticSourceFromImage_err X (Ref sl0)); [ eauto | ].
    apply IH, Hrest. intros ->. unfold knownLayerType in Hunknown.
    now rewrite Hfile, Himage in Hunknown.
Qed.

Lemma staticLayers_success (X : Extern) (newResolver : ResolverProvider)
    (sls : list StaticLayerConfig) (acc ls : list LayerSource) :
  value_of (staticLayers X newResolver sls acc) = inr ls ->
  ls = (acc ++ map (staticLayerSource newResolver) sls)%list.
Proof.
  revert acc. induction sls as [| sl rest IH]; intros acc; cbn [staticLayers].
  - intros [= <-]. cbn. now rewrite app_nil_r.
  - cbn [map].
    destruct (String.eqb (Type' sl) "file") eqn:Hfile.
    + assert (staticLayerSource newResolver sl = FileLayerSource (Ref sl))
        as -> by (unfold staticLayerSource; now rewrite Hfile).
      rewrite value_try, value_wrap_err, value_call.
      destruct (NewFileLayerSource_err X (Ref sl)); [ discriminate | ].
      intros Hrest. apply IH in Hrest. now rewrite Hrest, <- app_assoc.
    + assert (staticLayerSource newResolver sl
              = StaticSourceFromImage newResolver (Ref sl))
        as -> by (unfold staticLayerSource; now rewrite Hfile).
      destruct (String.eqb (Type' sl) "image"); [ | discriminate ].
      rewrite value_try, value_wrap_err, value_call.
      destruct (NewStaticSourceFromImage_err X (Ref sl)); [ discriminate | ].
      intros Hrest. apply IH in Hrest. now rewrite Hrest, <- app_assoc.
Qed.

(** X9.  A static layer whose type is neither [file] nor [image] makes
    [NewRegistry] fail, wherever it stands in the list and whatever the
    environment answers. *)
Theorem NewRegistry_rejects_unknown_layer_type (X : Extern) (cfg : Config)
    (newResolver : ResolverProvider) (sl : StaticLayerConfig) :
  In sl (StaticLayer cfg) ->
  Type' sl <> "file" -> Type' sl <> "image" ->
  exists err, value_of (NewRegistry X cfg newResolver) = inl err.
Proof.
  intros Hin Hfile Himage.
  assert (knownLayerType sl = false) as Hunknown.
  { unfold knownLayerType. apply String.eqb_neq in Hfile, Himage.
    now rewrite Hfile, Himage. }
  unfold NewRegistry. rewrite value_try, value_call.
  destruct (local_NewStore_err X _); [ eauto | ].
  rewrite value_try. cbn [value_of mret M_ret snd].
  destruct (newMetrics_err X); [ eauto | ].
  rewrite value_try. cbn [value_of mret M_ret snd].
  destruct (NewSpecMappedImageSource_err X); [ eauto | ].
  rewrite value_bind, value_try.
  destruct (staticLayers_unknown X newResolver (StaticLayer cfg)
              ([] ++ [SpecMappedImageSource newResolver ideRefSource])%list
              sl Hin Hunknown) as [err Herr].
  rewrite Herr. eauto.
Qed.

(** A third static layer of type [directory] in the sample deployment. *)
Lemma NewRegistry_rejects_unknown_layer_type_witness :
  let cfg :=
    {| Port := 8080; Prefix := EmptyString;
       StaticLayer := (StaticLayer Sample.config
                       ++ [ {| Ref := "/layers"; Type' := "directory" |} ])%list;
       RemoteSpecProvider := None; Store := "/mnt/cache/registry";
       RequireAuth := false; TLS := None;
       Handover := {| Enabled := false; Sockets := EmptyString |} |} in
  exists err, value_of (NewRegistry (Sample.env EmptyString) cfg "docker") = inl err.
Proof.
  intros cfg.
  apply (NewRegistry_rejects_unknown_layer_type (Sample.env EmptyString) cfg
           "docker" {| Ref := "/layers"; Type' := "directory" |}).
  - cbn. auto.
  - discriminate.
  - discriminate.
Defined.

(** X10.  The registry that [NewRegistry] returns composes its layer
    sources in this order: the image named by the spec's IDE reference,
    the static layers as configured, each by its type, and the content
    layers last.  Its config modifier works on the same composite, its
    store is the configured one under the Telepresence root, and the
    configuration is kept as given. *)
Theorem NewRegistry_layer_order (X : Extern) (cfg : Config)
    (newResolver : ResolverProvider) (reg : Registry) :
  value_of (NewRegistry X cfg newResolver) = inr reg ->
  reg_LayerSource reg
  = (SpecMappedImageSource newResolver ideRefSource
     :: map (staticLayerSource newResolver) (StaticLayer cfg)
     ++ [ContentLayerSource])%list /\
  reg_ConfigModifier reg = ConfigModifierFromLayerSource (reg_LayerSource reg) /\
  reg_Store reg = LocalStore (underRoot X (Store cfg)) /\
  reg_Config reg = cfg /\
  reg_Resolver reg = newResolver.
Proof.
  unfold NewRegistry. rewrite value_try, value_call.
  destruct (local_NewStore_err X _); [ discriminate | ].
  rewrite value_try. cbn [value_of mret M_ret snd].
  destruct (newMetrics_err X); [ discriminate | ].
  rewrite value_try. cbn [value_of mret M_ret snd].
  destruct (NewSpecMappedImageSource_err X); [ discriminate | ].
  rewrite value_bind, value_try.
  destruct (value_of (staticLayers X newResolver (StaticLayer cfg) _))
    as [err | ls] eqn:Hlayers; [ discriminate | ].
  apply staticLayers_success in Hlayers. subst ls.
  rewrite value_try. cbn [value_of mret M_ret snd].
  destruct (NewContentLayerSource_err X); [ discriminate | ].
  rewrite value_try.
  destruct (value_of (match RemoteSpecProvider cfg with
                      | Some rsp => _ | None => _ end)) as [err | sp];
    [ discriminate | ].
  intros [= <-]. cbn [reg_LayerSource reg_ConfigModifier reg_Store reg_Config
    reg_Resolver app]. repeat split.
Qed.

(** The registry of the sample deployment. *)
Lemma NewRegistry_layer_order_witness :
  exists reg,
    value_of (NewRegistry (Sample.env EmptyString) Sample.config "docker") = inr reg /\
    reg_LayerSource reg
    = [ SpecMappedImageSource "docker" ideRefSource;
        FileLayerSource "/layers/ide.tar.gz";
        StaticSourceFromImage "docker" "docker.io/gitpod/supervisor:latest";
        ContentLayerSource ].
Proof.
  eexists. split; [ reflexivity | ].
  exact (proj1 (NewRegistry_layer_order (Sample.env EmptyString) Sample.config
                  "docker" _ eq_refl)).
Defined.

Lemma remoteDialOptions_success (X : Extern) (rsp : RemoteSpecProviderConfig)
    (opts : list DialOption) :
  value_of (remoteDialOptions X rsp) = inr opts ->
  exists rootCA,
    opts = [WithUnaryInterceptor; WithStreamInterceptor;
            transportOption X rsp rootCA] /\
    forall tls,
      RemoteTLS rsp = Some tls ->
      os_ReadFile X (underRoot X (Authority tls)) = inr rootCA /\
      AppendCertsFromPEM X rootCA = true /\
      LoadX509KeyPair_err X (underRoot X (Certificate tls))
        (underRoot X (PrivateKey tls)) = None.
Proof.
  unfold remoteDialOptions, transportOption, underRoot.
  destruct (RemoteTLS rsp) as [tls |].
  - rewrite value_bind. cbn [value_of emit snd].
    destruct (os_ReadFile X _) as [err | rootCA] eqn:Hread; [ discriminate | ].
    destruct (AppendCertsFromPEM X rootCA) eqn:Hpem; cbn [negb];
      [ | discriminate ].
    rewrite value_bind. cbn [value_of emit snd].
    destruct (LoadX509KeyPair_err X _ _) eqn:Hpair.
    + rewrite value_bind. discriminate.
    + rewrite value_bind. cbn. intros [= <-]. exists rootCA.
      split; [ reflexivity | ]. intros tls' [= <-]. now repeat split.
  - cbn. intros [= <-]. exists EmptyString.
    split; [ reflexivity | discriminate ].
Qed.

(** X11.  The remote spec provider of a registry that was built dials
    with the two tracing interceptors and one transport option: insecure
    when no TLS is configured; otherwise credentials made of the
    configured certificate and key and of the content of the configured
    authority file, each under the Telepresence root, and then that file
    was readable, held PEM certificates, and the key pair loaded. *)
Theorem NewRegistry_remote_dial_options (X : Extern) (cfg : Config)
    (newResolver : ResolverProvider) (rsp : RemoteSpecProviderConfig)
    (reg : Registry) :
  RemoteSpecProvider cfg = Some rsp ->
  value_of (NewRegistry X cfg newResolver) = inr reg ->
  exists rootCA,
    reg_SpecProvider reg
    = {[ ProviderPrefixRemote
         := CachingSpecProvider 128
              (RemoteSpecProvider' (Addr rsp)
                 [WithUnaryInterceptor; WithStreamInterceptor;
                  transportOption X rsp rootCA]) ]} /\
    (RemoteTLS rsp = None -> transportOption X rsp rootCA = WithInsecure) /\
    forall tls,
      RemoteTLS rsp = Some tls ->
      os_ReadFile X (underRoot X (Authority tls)) = inr rootCA /\
      AppendCertsFromPEM X rootCA = true /\
      LoadX509KeyPair_err X (underRoot X (Certificate tls))
        (underRoot X (PrivateKey tls)) = None.
Proof.
  intros Hrsp Hreg.
  destruct (NewRegistry_remote_provider X cfg newResolver rsp reg Hrsp Hreg)
    as (opts & Hopts & Hmap).
  destruct (remoteDialOptions_success X rsp opts Hopts) as (rootCA & -> & Htls).
  exists rootCA. split; [ exact Hmap | ]. split; [ | exact Htls ].
  intros Hnone. unfold transportOption. now rewrite Hnone.
Qed.

(** The sample deployment connects to the workspace manager over TLS. *)
Lemma NewRegistry_remote_dial_options_witness :
  exists reg,
    value_of (NewRegistry (Sample.env "/tp") Sample.config "docker") = inr reg /\
    reg_SpecProvider reg
    = {[ ProviderPrefixRemote
         := CachingSpecProvider 128
              (RemoteSpecProvider' "ws-manager:8080"
                 [WithUnaryInterceptor; WithStreamInterceptor;
                  WithTransportCredentials
                    {| credCertFile := "/tp/certs/tls.crt";
                       credKeyFile := "/tp/certs/tls.key";
                       credRootCAs := "PEM" |}]) ]}.
Proof.
  eexists. split; [ reflexivity | ].
  destruct (NewRegistry_remote_dial_options (Sample.env "/tp") Sample.config
              "docker" _ _ eq_refl eq_refl) as (rootCA & Hmap & _ & Htls).
  destruct (Htls _ eq_refl) as (Hread & _).
  injection Hread as <-. exact Hmap.
Defined.

Lemma staticLayers_events (X : Extern) (newResolver : ResolverProvider)
    (sls : list StaticLayerConfig) (acc : list LayerSource) (ev : Event) :
  In ev (trace_of (staticLayers X newResolver sls acc)) ->
  (exists file, ev = EvNewFileLayerSource file) \/
  (exists ref, ev = EvNewStaticSourceFromImage ref).
Proof.
  revert acc. induction sls as [| sl rest IH]; intros acc; [ intros [] | ].
  cbn [staticLayers].
  destruct (String.eqb (Type' sl) "file").
  - rewrite trace_try, trace_wrap_err, value_wrap_err, trace_call, value_call.
    intros [<- | Hin]; [ left; eauto | ].
    destruct (NewFileLayerSource_err X (Ref sl)); [ destruct Hin | ].
    now apply IH in Hin.
  - destruct (String.eqb (Type' sl) "image"); [ | intros [] ].
    rewrite trace_try, trace_wrap_err, value_wrap_err, trace_call, value_call.
    intros [<- | Hin]; [ right; eauto | ].
    destruct (NewStaticSourceFromImage_err X (Ref sl)); [ destruct Hin | ].
    now apply IH in Hin.
Qed.

(** X12.  Without a remote spec provider in the configuration,
    [NewRegistry] calls neither [os.ReadFile] nor [tls.LoadX509KeyPair],
    and the registry it returns has no spec provider at all. *)
Theorem NewRegistry_without_remote_provider (X : Extern) (cfg : Config)
    (newResolver : ResolverProvider) :
  RemoteSpecProvider cfg = None ->
  (forall ev,
     In ev (trace_of (NewRegistry X cfg newResolver)) ->
     (forall name, ev <> EvReadFile name) /\
     (forall certFile keyFile, ev <> EvLoadX509KeyPair certFile keyFile)) /\
  (forall reg,
     value_of (NewRegistry X cfg newResolver) = inr reg ->
     reg_SpecProvider reg = ∅).
Proof.
  intros Hnone. split.
  - intros ev. unfold NewRegistry. rewrite trace_try, trace_call, value_call.
    intros [<- | Hin]; [ split; discriminate | ].
    destruct (local_NewStore_err X _); [ destruct Hin | ].
    rewrite trace_try in Hin. cbn [trace_of value_of mret M_ret fst snd app] in Hin.
    destruct (newMetrics_err X); [ destruct Hin | ].
    rewrite trace_try in Hin. cbn [trace_of value_of mret M_ret fst snd app] in Hin.
    destruct (NewSpecMappedImageSource_err X); [ destruct Hin | ].
    rewrite trace_bind in Hin. cbn [trace_of emit fst value_of snd] in Hin.
    apply in_app_or in Hin as [[<- | []] | Hin]; [ split; discriminate | ].
    rewrite trace_try in Hin. apply in_app_or in Hin as [Hin | Hin].
    + apply staticLayers_events in Hin as [[file ->] | [ref ->]];
        split; discriminate.
    + exfalso.
      destruct (value_of (staticLayers X newResolver (StaticLayer cfg) _));
        [ destruct Hin | ].
      rewrite trace_try in Hin.
      cbn [trace_of value_of mret M_ret fst snd app] in Hin.
      destruct (NewContentLayerSource_err X); [ destruct Hin | ].
      rewrite trace_try, Hnone in Hin. destruct Hin.
  - intros reg. unfold NewRegistry. rewrite value_try, value_call.
    destruct (local_NewStore_err X _); [ discriminate | ].
    rewrite value_try. cbn [value_of mret M_ret snd].
    destruct (newMetrics_err X); [ discriminate | ].
    rewrite value_try. cbn [value_of mret M_ret snd].
    destruct (NewSpecMappedImageSource_err X); [ discriminate | ].
    rewrite value_bind, value_try.
    destruct (value_of (staticLayers X newResolver (StaticLayer cfg) _));
      [ discriminate | ].
    rewrite value_try. cbn [value_of mret M_ret snd].
    destruct (NewContentLayerSource_err X); [ discriminate | ].
    rewrite value_try, Hnone. now intros [= <-].
Qed.

(** A configuration without remote spec provider. *)
Lemma NewRegistry_without_remote_provider_witness :
  let cfg :=
    {| Port := 8080; Prefix := EmptyString; StaticLayer := StaticLayer Sample.config;
       RemoteSpecProvider := None; Store := "/mnt/cache/registry";
       RequireAuth := false; TLS := None;
       Handover := {| Enabled := false; Sockets := EmptyString |} |} in
  exists reg,
    value_of (NewRegistry (Sample.env EmptyString) cfg "docker") = inr reg /\
    reg_SpecProvider reg = ∅.
Proof.
  intros cfg. eexists. split; [ reflexivity | ].
  exact (proj2 (NewRegistry_without_remote_provider (Sample.env EmptyString) cfg
                  "docker" eq_refl) _ eq_refl).
Defined.

(** ** Handover: the two ends *)

Lemma OfferHandover_other (X : Extern) (ctx : Context) (loc : string)
    (l : Listener) (s : bool) :
  isTCPListener l = false ->
  OfferHandover X ctx loc l s
  = ([], (None, Some "can only offer handovers for *net.TCPListener")).
Proof.
  intros Hother. unfold OfferHandover.
  rewrite (Join_dir_file loc _ (handoverSocketName_file_name _)).
  rewrite entry_path_nonempty by reflexivity.
  now rewrite Hother.
Qed.

(** X13.  [OfferHandover] never returns without a channel and without an
    error, not even for an empty sockets directory: the socket path is
    never empty.  For a listener that is not a TCP listener it returns the
    error that says so, starts no goroutine and logs nothing. *)
Theorem OfferHandover_never_silent (X : Extern) (ctx : Context) (loc : string)
    (l : Listener) (s : bool) :
  value_of (OfferHandover X ctx loc l s) <> (None, None) /\
  (isTCPListener l = false ->
   OfferHandover X ctx loc l s
   = ([], (None, Some "can only offer handovers for *net.TCPListener"))).
Proof.
  split.
  - destruct (isTCPListener l) eqn:Htcp.
    + now rewrite (OfferHandover_tcp X ctx loc l s Htcp).
    + now rewrite (OfferHandover_other X ctx loc l s Htcp).
  - apply OfferHandover_other.
Qed.

(** A listener on a Unix socket, offered with no sockets directory. *)
Lemma OfferHandover_never_silent_witness :
  OfferHandover (Sample.env EmptyString) Background EmptyString
    {| isTCPListener := false; listenerOrigin := "/run/rf.sock" |} true
  = ([], (None, Some "can only offer handovers for *net.TCPListener")).
Proof.
  exact (proj2 (OfferHandover_never_silent (Sample.env EmptyString) Background
                  EmptyString
                  {| isTCPListener := false; listenerOrigin := "/run/rf.sock" |}
                  true) eq_refl).
Defined.

(** X14.  On a directory whose entries report file types,
    [ReceiveHandover] comes back without a listener whatever the entries
    are: empty-handed and without touching the file system for an empty
    location, with the error of [os.ReadDir] when the directory cannot be
    read, and empty-handed after reading it otherwise; it never calls
    into the [handover] package. *)
Theorem ReceiveHandover_comes_back_empty (X : Extern) (ctx : Context)
    (loc : string) :
  (forall fs, os_ReadDir X loc = inr fs -> file_types fs) ->
  ReceiveHandover X ctx loc
  = if string_is_empty loc then ([], (None, None))
    else ([EvReadDir loc],
          (None, match os_ReadDir X loc with
                 | inl err => Some err
                 | inr _ => None
                 end)).
Proof.
  intros Hdir. unfold ReceiveHandover.
  destruct (string_is_empty loc); [ reflexivity | ].
  destruct (os_ReadDir X loc) as [err | fs]; [ reflexivity | ].
  now rewrite (latestSocket_skips_all fs (Hdir fs eq_refl)).
Qed.

(** The sample directory, with its socket. *)
Lemma ReceiveHandover_comes_back_empty_witness :
  ReceiveHandover (Sample.env EmptyString) Background "/var/run/rf"
  = ([EvReadDir "/var/run/rf"], (None, None)).
Proof.
  apply (ReceiveHandover_comes_back_empty (Sample.env EmptyString) Background
           "/var/run/rf").
  intros fs [= <-]. constructor; [ apply ModeSocket_is_file_type | constructor ].
Defined.

(** ** [Serve]: start-up *)

Lemma Serve_listener_error (X : Extern) (cfg : Config) (addr : string)
    (err : error) :
  value_of (Serve_listener X cfg addr) = inl err ->
  net_Listen_err X "tcp" addr = Some err.
Proof.
  unfold Serve_listener. rewrite value_bind.
  destruct (value_of (if (Enabled (Handover cfg)
                          && nonempty (Sockets (Handover cfg)))%bool
                      then _ else _)) as [[l |] herr]; [ discriminate | ].
  rewrite value_call. now destruct (net_Listen_err X "tcp" addr); intros [= ->].
Qed.

(** X15.  [Serve] returns before serving only with an error, never nil:
    the error of binding its own listener, or, with the handover enabled,
    the refusal to offer a listener that is not a TCP listener. *)
Theorem Serve_start_returns_only_errors (X : Extern) (reg : Registry)
    (r : option error) :
  let cfg := reg_Config reg in
  value_of (Serve_start X reg) = Returned r ->
  exists err,
    r = Some err /\
    (net_Listen_err X "tcp" (":" +:+ itoa (Port cfg)) = Some err \/
     Enabled (Handover cfg) = true /\
     err = "can only offer handovers for *net.TCPListener").
Proof.
  intros cfg. unfold Serve_start. fold cfg. rewrite !value_bind.
  destruct (value_of (Serve_listener X cfg _)) as [err | l] eqn:Hlisten.
  - intros [= <-]. exists err. split; [ reflexivity | left ].
    now apply (Serve_listener_error X cfg).
  - rewrite value_bind. destruct (Enabled (Handover cfg)) eqn:Hen.
    + rewrite value_bind. destruct (isTCPListener l) eqn:Htcp.
      * rewrite (OfferHandover_tcp X _ _ l true Htcp). cbn.
        destruct (TLS cfg); discriminate.
      * rewrite (OfferHandover_other X _ _ l true Htcp). cbn.
        intros [= <-]. eexists. split; [ reflexivity | right ]. now split.
    + cbn. destruct (TLS cfg); discriminate.
Qed.

(** The sample deployment when the port is taken. *)
Lemma Serve_start_returns_only_errors_witness :
  let X := Sample.env EmptyString in
  let busy :=
    {| Getenv := Getenv X; time_Now_Unix := time_Now_Unix X;
       local_NewStore_err := local_NewStore_err X;
       newMetrics_err := newMetrics_err X;
       NewSpecMappedImageSource_err := NewSpecMappedImageSource_err X;
       NewFileLayerSource_err := NewFileLayerSource_err X;
       NewStaticSourceFromImage_err := NewStaticSourceFromImage_err X;
       NewContentLayerSource_err := NewContentLayerSource_err X;
       os_ReadFile := os_ReadFile X; AppendCertsFromPEM := AppendCertsFromPEM X;
       LoadX509KeyPair_err := LoadX509KeyPair_err X;
       NewCachingSpecProvider_err := NewCachingSpecProvider_err X;
       os_ReadDir := os_ReadDir X;
       handover_ReceiveHandover := handover_ReceiveHandover X;
       net_Listen_err := fun _ _ => Some "bind: address already in use";
       ServeMux_answers := ServeMux_answers X;
       route_match := route_match X; BasicAuth := BasicAuth X;
       manifestHandler := manifestHandler X; blobHandler := blobHandler X |} in
  value_of (Serve_start busy (Sample.registry Sample.config))
    = Returned (Some "bind: address already in use") /\
  net_Listen_err busy "tcp" ":8080" = Some "bind: address already in use".
Proof.
  intros X busy. split; [ reflexivity | ].
  destruct (Serve_start_returns_only_errors busy (Sample.registry Sample.config)
              (Some "bind: address already in use") eq_refl)
    as (err & [= <-] & [Hbind | [_ Hother]]).
  - exact Hbind.
  - discriminate Hother.
Defined.

(** ** [Serve]: the goroutines, continued *)

Lemma Serve_start_without_handover (X : Extern) (reg : Registry) (t0 : Threads) :
  Enabled (Handover (reg_Config reg)) = false ->
  threads_of (value_of (Serve_start X reg)) = Some t0 ->
  offerPc t0 = NoOffer.
Proof.
  intros Hen. unfold Serve_start. rewrite !value_bind.
  destruct (value_of (Serve_listener X _ _)) as [err | l]; [ discriminate | ].
  rewrite value_bind, Hen. cbn.
  destruct (TLS (reg_Config reg)); cbn; now intros [= <-].
Qed.

Lemma without_offer_step (t t' : Threads) (a : Action) :
  offerPc t = NoOffer ->
  (forall r, mainPc t = ServeReturned r ->
     exists err, r = Some err /\ serverPc t = ErrTaken) ->
  mainPc t <> AtWaitShutdown ->
  step t a = Some t' ->
  offerPc t' = NoOffer /\
  (forall r, mainPc t' = ServeReturned r ->
     exists err, r = Some err /\ serverPc t' = ErrTaken) /\
  mainPc t' <> AtWaitShutdown.
Proof.
  destruct t as [m o s h]. cbn. intros -> Hret Hwait. unfold step. cbn.
  destruct a as [ | | | err | err | | | err]; destruct m as [ | | | r];
    try destruct s; cbn; intros [= <-]; cbn;
    repeat split; try congruence; try (intros r' [= <-]; eauto).
  all: try (intros r' Hr; destruct (Hret r' Hr) as (e & -> & Hs);
            try discriminate Hs; eauto).
  all: destruct (Hret _ eq_refl) as (e & _ & Hs); discriminate Hs.
Qed.

Lemma without_offer_exec (acts : list Action) (t t' : Threads) :
  offerPc t = NoOffer ->
  (forall r, mainPc t = ServeReturned r ->
     exists err, r = Some err /\ serverPc t = ErrTaken) ->
  mainPc t <> AtWaitShutdown ->
  exec t acts = Some t' ->
  offerPc t' = NoOffer /\
  (forall r, mainPc t' = ServeReturned r ->
     exists err, r = Some err /\ serverPc t' = ErrTaken).
Proof.
  revert t. induction acts as [| a acts IH]; intros t Hoffer Hret Hwait; cbn.
  - intros [= <-]. now split.
  - destruct (step t a) as [t1 |] eqn:Hstep; [ | discriminate ].
    destruct (without_offer_step t t1 a Hoffer Hret Hwait Hstep)
      as (Hoffer1 & Hret1 & Hwait1).
    now apply IH.
Qed.

(** X16.  With the handover disabled there is no handover goroutine, and
    [Serve], once it serves, returns only when the HTTP server returns,
    and returns the very error with which the server returned: never
    nil. *)
Theorem Serve_without_handover_returns_server_error (X : Extern)
    (reg : Registry) (t0 t : Threads) (acts : list Action) :
  Enabled (Handover (reg_Config reg)) = false ->
  threads_of (value_of (Serve_start X reg)) = Some t0 ->
  exec t0 acts = Some t ->
  offerPc t = NoOffer /\
  forall r, Serve_result t = Some r ->
    exists err,
      r = Some err /\ server_error acts = Some err /\ serverPc t = ErrTaken.
Proof.
  intros Hen Hstart Hexec.
  pose proof (Serve_start_without_handover X reg t0 Hen Hstart) as Hoffer.
  destruct (Serve_start_threads X reg t0 Hstart) as (Hmain & _ & _).
  destruct (Serve_start_running X reg t0 Hstart) as [Hrun Hnot].
  pose proof (returned_error_is_servers acts t0 t Hrun
                (fun e => Hnot (Some e)) Hexec) as Hsame.
  destruct (without_offer_exec acts t0 t Hoffer) as [Hoffer' Hret]; try assumption.
  - intros r Hr. now apply Hnot in Hr.
  - rewrite Hmain. now destruct (servesTLS _).
  - split; [ exact Hoffer' | ].
    intros r. unfold Serve_result.
    destruct (mainPc t) as [ | | | r'] eqn:Hm; try discriminate.
    intros [= <-]. destruct (Hret r' eq_refl) as (err & -> & Htaken).
    exists err. repeat split; [ now apply Hsame | exact Htaken ].
Qed.

(** The sample deployment with the handover switched off: the server
    fails, [Serve] takes the error. *)
Lemma Serve_without_handover_returns_server_error_witness :
  let cfg :=
    {| Port := 8080; Prefix := EmptyString; StaticLayer := [];
       RemoteSpecProvider := None; Store := "/mnt/cache/registry";
       RequireAuth := false; TLS := None;
       Handover := {| Enabled := false; Sockets := "/var/run/rf" |} |} in
  let acts := [ServerReturns "accept: too many open files"; TakeServerError] in
  let t := {| mainPc := ServeReturned (Some "accept: too many open files");
              offerPc := NoOffer; serverPc := ErrTaken;
              hasShutdowner := false |} in
  reachable (Sample.env EmptyString) (Sample.registry cfg) t /\
  exists err,
    Some "accept: too many open files" = Some err /\
    server_error acts = Some err /\ serverPc t = ErrTaken.
Proof.
  intros cfg acts t.
  assert (reachable (Sample.env EmptyString) (Sample.registry cfg) t) as Hreach.
  { eexists. exists acts. split; reflexivity. }
  split; [ exact Hreach | ].
  exact (proj2 (Serve_without_handover_returns_server_error
                  (Sample.env EmptyString) (Sample.registry cfg) _ t acts
                  eq_refl eq_refl eq_refl) _ eq_refl).
Defined.

Lemma draining_step (tls : bool) (t t' : Threads) (a : Action) :
  consistent tls t ->
  (offerPc t = ShuttingDown -> mainPc t = AtWaitShutdown) ->
  step t a = Some t' ->
  offerPc t' = ShuttingDown -> mainPc t' = AtWaitShutdown.
Proof.
  destruct t as [m o s h]. unfold consistent, step. cbn.
  destruct a as [ | | | err | err | | | err];
    destruct m as [ | | | [e |]]; destruct o as [ | | | | []];
    try destruct s; try destruct h; try destruct err; cbn;
    intros Hinv Hdrain [= <-]; cbn; intros Hshut;
    try discriminate Hshut; try reflexivity;
    try (now apply Hdrain); try (destruct Hinv; discriminate).
Qed.

Lemma draining_exec (tls : bool) (acts : list Action) (t t' : Threads) :
  consistent tls t ->
  (offerPc t = ShuttingDown -> mainPc t = AtWaitShutdown) ->
  exec t acts = Some t' ->
  offerPc t' = ShuttingDown -> mainPc t' = AtWaitShutdown.
Proof.
  revert t. induction acts as [| a acts IH]; intros t Hinv Hdrain; cbn.
  - now intros [= <-].
  - destruct (step t a) as [t1 |] eqn:Hstep; [ | discriminate ].
    apply IH.
    + now apply (consistent_step tls t t1 a).
    + now apply (draining_step tls t t1 a).
Qed.

(** X17.  While [s.Shutdown] is running, [Serve] has not returned: it
    stands at its second receive from the handover channel, and no step of
    any goroutine makes it return before the channel is closed. *)
Theorem Serve_waits_for_the_drain (X : Extern) (reg : Registry) (t : Threads) :
  reachable X reg t ->
  offerPc t = ShuttingDown ->
  mainPc t = AtWaitShutdown /\
  Serve_result t = None /\
  forall a t', step t a = Some t' -> Serve_result t' = None.
Proof.
  intros Hreach Hshut.
  assert (mainPc t = AtWaitShutdown) as Hmain.
  { destruct Hreach as (t0 & acts & Hstart & Hexec).
    apply (draining_exec (servesTLS (reg_Config reg)) acts t0 t);
      try assumption.
    - now apply (consistent_start X).
    - destruct (Serve_start_threads X reg t0 Hstart) as (_ & [-> | ->] & _);
        discriminate. }
  split; [ exact Hmain | ].
  unfold Serve_result. rewrite Hmain. split; [ reflexivity | ].
  intros a t'. destruct t as [m o s h]. cbn in Hshut, Hmain. subst m o.
  unfold step. cbn.
  destruct a as [ | | | err | err | | | err]; try destruct s; cbn;
    intros [= <-]; reflexivity.
Qed.

(** The sample deployment while the donor drains. *)
Lemma Serve_waits_for_the_drain_witness :
  let t := {| mainPc := AtWaitShutdown; offerPc := ShuttingDown;
              serverPc := ServerRunning; hasShutdowner := true |} in
  reachable (Sample.env EmptyString) (Sample.registry Sample.config) t /\
  Serve_result t = None /\
  forall a t', step t a = Some t' -> Serve_result t' = None.
Proof.
  intros t.
  assert (reachable (Sample.env EmptyString) (Sample.registry Sample.config) t)
    as Hreach
    by (eexists; exists [OfferSucceeds; DeliverTrue]; split; reflexivity).
  split; [ exact Hreach | ].
  exact (proj2 (Serve_waits_for_the_drain (Sample.env EmptyString)
                  (Sample.registry Sample.config) t Hreach eq_refl)).
Defined.

(** X18.  Serving HTTPS, a handover is never completed: [Serve] is inside
    [ServeTLS] and nobody receives from the handover channel, so the
    goroutine of [OfferHandover], once its offer succeeded, stays at its
    send whatever happens; [Shutdown] is never called and [Serve] never
    returns nil. *)
Theorem handover_over_https_never_drains (X : Extern) (reg : Registry)
    (t : Threads) :
  reachable X reg t ->
  servesTLS (reg_Config reg) = true ->
  shutdownCalled t = false /\
  Serve_result t <> Some None /\
  (offerPc t = SendingTrue ->
   forall a t', step t a = Some t' -> offerPc t' = SendingTrue).
Proof.
  intros Hreach Htls.
  pose proof (consistent_reachable X reg t Hreach) as Hinv.
  rewrite Htls in Hinv. unfold consistent in Hinv.
  destruct t as [m o s h]. unfold shutdownCalled, Serve_result, step.
  cbn in *.
  destruct m as [ | | | [err |]].
  - destruct Hinv as [_ Hbefore]. repeat split.
    + destruct o as [ | | | | []]; try reflexivity; discriminate Hbefore.
    + discriminate.
    + intros -> a t'. destruct a; try destruct s; cbn; intros Hstep;
        try discriminate Hstep; injection Hstep as <-; reflexivity.
  - destruct Hinv as [Hinv _]. discriminate Hinv.
  - destruct Hinv as [Hinv _]. discriminate Hinv.
  - destruct Hinv as [Hbefore _]. repeat split.
    + destruct o as [ | | | | []]; try reflexivity; discriminate Hbefore.
    + discriminate.
    + intros -> a t'. destruct a; try destruct s; cbn; intros Hstep;
        try discriminate Hstep; injection Hstep as <-; reflexivity.
  - discriminate Hinv.
Qed.

(** The sample deployment serving HTTPS: the offer succeeded, and the
    goroutine is stuck at its send. *)
Lemma handover_over_https_never_drains_witness :
  let t := {| mainPc := AtServeTLS; offerPc := SendingTrue;
              serverPc := ServerRunning; hasShutdowner := true |} in
  reachable (Sample.env EmptyString) (Sample.registry Sample.configTLS) t /\
  shutdownCalled t = false /\
  forall a t', step t a = Some t' -> offerPc t' = SendingTrue.
Proof.
  intros t.
  assert (reachable (Sample.env EmptyString) (Sample.registry Sample.configTLS) t)
    as Hreach
    by (eexists; exists [OfferSucceeds]; split; reflexivity).
  split; [ exact Hreach | ].
  destruct (handover_over_https_never_drains (Sample.env EmptyString)
              (Sample.registry Sample.configTLS) t Hreach eq_refl)
    as (Hshut & _ & Hstuck).
  split; [ exact Hshut | exact (Hstuck eq_refl) ].
Defined.

(** ** The environment variables *)

Lemma NewRegistry_tls_events (X : Extern) (cfg : Config)
    (newResolver : ResolverProvider) (ev : Event) :
  In ev (trace_of (NewRegistry X cfg newResolver)) ->
  (exists name, ev = EvReadFile name) \/
  (exists certFile keyFile, ev = EvLoadX509KeyPair certFile keyFile) ->
  exists rsp, RemoteSpecProvider cfg = Some rsp /\
              In ev (trace_of (remoteDialOptions X rsp)).
Proof.
  intros Hin Hkind.
  assert (forall file, ev <> EvNewFileLayerSource file) as Hfile
    by (intros file ->; destruct Hkind as [[? [=]] | (? & ? & [=])]).
  assert (forall ref, ev <> EvNewStaticSourceFromImage ref) as Himage
    by (intros ref ->; destruct Hkind as [[? [=]] | (? & ? & [=])]).
  assert (forall root, ev <> EvNewStore root) as Hstore
    by (intros root ->; destruct Hkind as [[? [=]] | (? & ? & [=])]).
  assert (forall lvl msg, ev <> EvLog lvl msg) as Hlog
    by (intros lvl msg ->; destruct Hkind as [[? [=]] | (? & ? & [=])]).
  revert Hin. unfold NewRegistry. rewrite trace_try, trace_call, value_call.
  intros [Hin | Hin]; [ now apply eq_sym, Hstore in Hin | ].
  destruct (local_NewStore_err X _); [ destruct Hin | ].
  rewrite trace_try in Hin. cbn [trace_of value_of mret M_ret fst snd app] in Hin.
  destruct (newMetrics_err X); [ destruct Hin | ].
  rewrite trace_try in Hin. cbn [trace_of value_of mret M_ret fst snd app] in Hin.
  destruct (NewSpecMappedImageSource_err X); [ destruct Hin | ].
  rewrite trace_bind in Hin. cbn [trace_of emit fst value_of snd] in Hin.
  apply in_app_or in Hin as [[Hin | []] | Hin];
    [ now apply eq_sym, Hlog in Hin | ].
  rewrite trace_try in Hin. apply in_app_or in Hin as [Hin | Hin].
  - apply staticLayers_events in Hin as [[file ->] | [ref ->]];
      [ now destruct (Hfile file) | now destruct (Himage ref) ].
  - destruct (value_of (staticLayers X newResolver (StaticLayer cfg) _));
      [ destruct Hin | ].
    rewrite trace_try in Hin.
    cbn [trace_of value_of mret M_ret fst snd app] in Hin.
    destruct (NewContentLayerSource_err X); [ destruct Hin | ].
    rewrite trace_try in Hin. apply in_app_or in Hin as [Hin | Hin].
    + destruct (RemoteSpecProvider cfg) as [rsp |]; [ | destruct Hin ].
      exists rsp. split; [ reflexivity | ].
      rewrite trace_try in Hin. apply in_app_or in Hin as [Hin | Hin];
        [ exact Hin | ].
      destruct (value_of (remoteDialOptions X rsp)); [ destruct Hin | ].
      destruct (NewCachingSpecProvider_err X 128); destruct Hin.
    + destruct (value_of (match RemoteSpecProvider cfg with
                          | Some rsp => _ | None => _ end));
        destruct Hin.
Qed.

(** X19.  Where [TELEPRESENCE_ROOT] reaches: the store that [NewRegistry]
    opens first, every file it reads and every key pair it loads (the TLS
    material of the remote spec provider), and the certificate and key
    that [Serve] gives to [ServeTLS], are the configured paths joined
    under the root when the variable is set, and the configured paths
    themselves when it is not. *)
Theorem telepresence_root_reaches (X : Extern) (cfg : Config)
    (newResolver : ResolverProvider) :
  (forall path,
     underRoot X path
     = if nonempty (Getenv X "TELEPRESENCE_ROOT")
       then Join [Getenv X "TELEPRESENCE_ROOT"; path] else path) /\
  (exists rest,
     trace_of (NewRegistry X cfg newResolver)
     = EvNewStore (underRoot X (Store cfg)) :: rest) /\
  (forall name,
     In (EvReadFile name) (trace_of (NewRegistry X cfg newResolver)) ->
     exists rsp tls,
       RemoteSpecProvider cfg = Some rsp /\ RemoteTLS rsp = Some tls /\
       name = underRoot X (Authority tls)) /\
  (forall certFile keyFile,
     In (EvLoadX509KeyPair certFile keyFile)
        (trace_of (NewRegistry X cfg newResolver)) ->
     exists rsp tls,
       RemoteSpecProvider cfg = Some rsp /\ RemoteTLS rsp = Some tls /\
       certFile = underRoot X (Certificate tls) /\
       keyFile = underRoot X (PrivateKey tls)) /\
  (forall reg srv l certFile keyFile hoc,
     reg_Config reg = cfg ->
     value_of (Serve_start X reg) = InServeTLS srv l certFile keyFile hoc ->
     exists tls,
       TLS cfg = Some tls /\
       certFile = underRoot X (tlsCertificate tls) /\
       keyFile = underRoot X (tlsPrivateKey tls)).
Proof.
  split; [ reflexivity | ].
  split; [ apply NewRegistry_store_under_root | ].
  split; [ | split ].
  - intros name Hin.
    destruct (NewRegistry_tls_events X cfg newResolver _ Hin) as (rsp & Hrsp & Hev);
      [ left; eauto | ].
    apply remoteDialOptions_paths in Hev
      as (tls & Htls & [Hev | [Hev | (lvl & msg & Hev)]]); try discriminate Hev.
    injection Hev as ->. eauto.
  - intros certFile keyFile Hin.
    destruct (NewRegistry_tls_events X cfg newResolver _ Hin) as (rsp & Hrsp & Hev);
      [ right; eauto | ].
    apply remoteDialOptions_paths in Hev
      as (tls & Htls & [Hev | [Hev | (lvl & msg & Hev)]]); try discriminate Hev.
    injection Hev as -> ->. exists rsp, tls. now repeat split.
  - intros reg srv l certFile keyFile hoc <- Hserve.
    now apply (Serve_start_tls_paths X reg srv l certFile keyFile hoc).
Qed.

(** The sample deployment under [/tp], serving HTTPS. *)
Lemma telepresence_root_reaches_witness :
  let X := Sample.env "/tp" in
  exists tls,
    TLS Sample.configTLS = Some tls /\
    "/tp/certs/srv.crt" = underRoot X (tlsCertificate tls) /\
    "/tp/certs/srv.key" = underRoot X (tlsPrivateKey tls).
Proof.
  intros X.
  destruct (telepresence_root_reaches X Sample.configTLS "docker")
    as (_ & _ & _ & _ & Hserve).
  eapply (Hserve (Sample.registry Sample.configTLS) _ _
            "/tp/certs/srv.crt" "/tp/certs/srv.key" _ eq_refl).
  reflexivity.
Defined.

Lemma ReceiveHandover_events (X : Extern) (ctx : Context) (loc : string)
    (ev : Event) :
  In ev (trace_of (ReceiveHandover X ctx loc)) ->
  (exists name, ev = EvReadDir name) \/
  (exists lvl msg, ev = EvLog lvl msg) \/
  (exists c socket, ev = EvHandoverReceive c socket).
Proof.
  unfold ReceiveHandover.
  destruct (string_is_empty loc); [ intros [] | ].
  destruct (os_ReadDir X loc) as [err | fs]; cbn.
  - intros [<- | []]. left. eauto.
  - destruct (string_is_empty (latestSocket fs)); cbn.
    + intros [<- | []]. left. eauto.
    + intros [<- | [<- | [<- | []]]]; eauto 6.
Qed.

Lemma Serve_listener_events (X : Extern) (cfg : Config) (addr : string)
    (ev : Event) :
  In ev (trace_of (Serve_listener X cfg addr)) ->
  forall debugAddr, ev <> EvGoListenAndServe debugAddr.
Proof.
  unfold Serve_listener. rewrite trace_bind, in_app_iff.
  intros [Hin | Hin] debugAddr ->.
  - destruct (Enabled (Handover cfg) && nonempty (Sockets (Handover cfg)))%bool;
      [ | destruct Hin ].
    rewrite trace_bind, in_app_iff in Hin. destruct Hin as [Hin | Hin].
    + apply ReceiveHandover_events in Hin
        as [[? [=]] | [(? & ? & [=]) | (? & ? & [=])]].
    + destruct (value_of (ReceiveHandover X _ _)) as [l [err |]];
        cbn in Hin; intuition discriminate.
  - destruct (value_of (if (Enabled (Handover cfg)
                            && nonempty (Sockets (Handover cfg)))%bool
                        then _ else _)) as [[l |] herr];
      cbn in Hin; intuition discriminate.
Qed.

(** X20.  [Serve] starts the additional plain HTTP server of
    [REGFAC_NO_TLS_DEBUG] exactly when that variable is not empty, on the
    address it holds, and before it obtains its listener; this does not
    depend on the TLS and handover configuration. *)
Theorem debug_listener_follows_environment (X : Extern) (reg : Registry)
    (addr : string) :
  (In (EvGoListenAndServe addr) (trace_of (Serve_start X reg)) <->
   addr <> EmptyString /\ Getenv X "REGFAC_NO_TLS_DEBUG" = addr) /\
  (Getenv X "REGFAC_NO_TLS_DEBUG" <> EmptyString ->
   exists rest,
     trace_of (Serve_start X reg)
     = EvGoListenAndServe (Getenv X "REGFAC_NO_TLS_DEBUG") :: rest).
Proof.
  unfold Serve_start. rewrite trace_bind.
  destruct (Getenv X "REGFAC_NO_TLS_DEBUG") as [| c debug] eqn:Henv;
    cbn [nonempty string_is_empty negb trace_of value_of emit mret M_ret fst snd].
  - split; [ | intros []; reflexivity ].
    split; [ | intros [Hne <-]; now destruct Hne ].
    cbn [app]. rewrite trace_bind, in_app_iff. intros [Hin | Hin]; exfalso.
    + now apply (Serve_listener_events X _ _ _ Hin addr).
    + destruct (value_of (Serve_listener X _ _)) as [err | l]; [ destruct Hin | ].
      rewrite trace_bind, in_app_iff in Hin. destruct Hin as [Hin | Hin].
      * destruct (Enabled (Handover (reg_Config reg))); [ | destruct Hin ].
        rewrite trace_bind, in_app_iff in Hin. unfold OfferHandover in Hin.
        destruct (string_is_empty _); cbn in Hin; [ tauto | ].
        destruct (isTCPListener l); cbn in Hin; intuition discriminate.
      * destruct (value_of (if Enabled (Handover (reg_Config reg))
                            then _ else _)) as [err | hoc]; [ destruct Hin | ].
        destruct (TLS (reg_Config reg)); cbn in Hin; intuition discriminate.
  - split; [ | intros _; eexists; reflexivity ].
    cbn [app]. split.
    + intros [[= <-] | Hin]; [ now split | exfalso ].
      rewrite trace_bind, in_app_iff in Hin. destruct Hin as [Hin | Hin].
      * now apply (Serve_listener_events X _ _ _ Hin addr).
      * destruct (value_of (Serve_listener X _ _)) as [err | l]; [ destruct Hin | ].
        rewrite trace_bind, in_app_iff in Hin. destruct Hin as [Hin | Hin].
        -- destruct (Enabled (Handover (reg_Config reg))); [ | destruct Hin ].
           rewrite trace_bind, in_app_iff in Hin. unfold OfferHandover in Hin.
           destruct (string_is_empty _); cbn in Hin; [ tauto | ].
           destruct (isTCPListener l); cbn in Hin; intuition discriminate.
        -- destruct (value_of (if Enabled (Handover (reg_Config reg))
                              then _ else _)) as [err | hoc]; [ destruct Hin | ].
           destruct (TLS (reg_Config reg)); cbn in Hin; intuition discriminate.
    + intros [_ <-]. now left.
Qed.

(** The sample deployment debugged with [REGFAC_NO_TLS_DEBUG=:8081]. *)
Lemma debug_listener_follows_environment_witness :
  let X := Sample.env EmptyString in
  let debug :=
    {| Getenv := fun key =>
         if String.eqb key "REGFAC_NO_TLS_DEBUG" then ":8081" else Getenv X key;
       time_Now_Unix := time_Now_Unix X;
       local_NewStore_err := local_NewStore_err X;
       newMetrics_err := newMetrics_err X;
       NewSpecMappedImageSource_err := NewSpecMappedImageSource_err X;
       NewFileLayerSource_err := NewFileLayerSource_err X;
       NewStaticSourceFromImage_err := NewStaticSourceFromImage_err X;
       NewContentLayerSource_err := NewContentLayerSource_err X;
       os_ReadFile := os_ReadFile X; AppendCertsFromPEM := AppendCertsFromPEM X;
       LoadX509KeyPair_err := LoadX509KeyPair_err X;
       NewCachingSpecProvider_err := NewCachingSpecProvider_err X;
       os_ReadDir := os_ReadDir X;
       handover_ReceiveHandover := handover_ReceiveHandover X;
       net_Listen_err := net_Listen_err X;
       ServeMux_answers := ServeMux_answers X;
       route_match := route_match X; BasicAuth := BasicAuth X;
       manifestHandler := manifestHandler X; blobHandler := blobHandler X |} in
  exists rest,
    trace_of (Serve_start debug (Sample.registry Sample.configTLS))
    = EvGoListenAndServe ":8081" :: rest.
Proof.
  intros X debug.
  exact (proj2 (debug_listener_follows_environment debug
                  (Sample.registry Sample.configTLS) ":8081")
           ltac:(discriminate)).
Defined.
